(** * tensorpilot: the semantic memory and retrieval core

    A shallow embedding of [src/workflow/memory.py] (MemoryStore),
    [src/workflow/rag.py] (RAGManager) and [src/workflow/react.py]
    (ReActPlanner), with the properties of the specification stated and
    settled over it.

    Conventions of the embedding.
    - A Python [float] is an IEEE 754 binary64 number: Rocq's primitive
      [float], with the same operations and comparisons.
    - A Python [str] is a [string]; a character is a code point below 256.
    - A [dict] used as a map is a [gmap]; a [set] is a [gset]; a [list] is a
      [list]; [None] is [None].
    - A callable that may raise returns an [option] (or a sum) instead; the
      embedder and the verifier are functions of their argument.
    - [time.time()] is a clock reading handed to the operation that reads it. *)

From Stdlib Require Import ZArith List Floats Ascii String Lia Permutation Sorted.
From stdpp Require Import base gmap strings pretty list.

Open Scope string_scope.
Open Scope list_scope.
Open Scope Z_scope.

(** ** Python strings *)

Module PyStr.

Definition code (c : ascii) : N := N_of_ascii c.

(** [str.isspace] on one character: the separators of [str.split()],
    [str.strip()] and of [\s] in a [re] pattern over [str]. *)
Definition is_space (c : ascii) : bool :=
  let n := code c in
  ((9 <=? n) && (n <=? 13) || (28 <=? n) && (n <=? 32)
   || (n =? 133) || (n =? 160))%N.

Definition lower_char (c : ascii) : ascii :=
  let n := code c in
  if ((65 <=? n) && (n <=? 90)
      || (192 <=? n) && (n <=? 222) && negb (n =? 215))%N
  then ascii_of_N (n + 32) else c.

Definition upper_char (c : ascii) : ascii :=
  let n := code c in
  if ((97 <=? n) && (n <=? 122)
      || (224 <=? n) && (n <=? 254) && negb (n =? 247))%N
  then ascii_of_N (n - 32) else c.

Fixpoint map_chars (f : ascii -> ascii) (s : string) : string :=
  match s with
  | EmptyString => EmptyString
  | String c s' => String (f c) (map_chars f s')
  end.

(** [s.lower()] and [s.upper()].  [upper] is exact on the letters whose
    capital is again one character below 256; the code applies it to the
    tags "global" and "user" only. *)
Definition lower (s : string) : string := map_chars lower_char s.
Definition upper (s : string) : string := map_chars upper_char s.

(** [q in t] *)
Fixpoint contains (q t : string) : bool :=
  String.prefix q t ||
  match t with
  | EmptyString => false
  | String _ t' => contains q t'
  end.

(** [c in s] for one character *)
Fixpoint has_char (c : ascii) (s : string) : bool :=
  match s with
  | EmptyString => false
  | String d s' => Ascii.eqb c d || has_char c s'
  end.

Definition of_rev (cur : list ascii) : string :=
  string_of_list_ascii (rev cur).

(** [s.split()]: maximal runs of non-space characters *)
Fixpoint split_ws_from (cur : list ascii) (s : string) : list string :=
  match s with
  | EmptyString => match cur with [] => [] | _ => [of_rev cur] end
  | String c s' =>
      if is_space c
      then match cur with
           | [] => split_ws_from [] s'
           | _ => of_rev cur :: split_ws_from [] s'
           end
      else split_ws_from (c :: cur) s'
  end.

Definition split_ws (s : string) : list string := split_ws_from [] s.

(** [s.split(sep)] for a one-character separator: empty pieces are kept *)
Fixpoint split_on_from (sep : ascii) (cur : list ascii) (s : string)
  : list string :=
  match s with
  | EmptyString => [of_rev cur]
  | String c s' =>
      if Ascii.eqb c sep
      then of_rev cur :: split_on_from sep [] s'
      else split_on_from sep (c :: cur) s'
  end.

Definition split_on (sep : ascii) (s : string) : list string :=
  split_on_from sep [] s.

Fixpoint lstrip (s : string) : string :=
  match s with
  | EmptyString => EmptyString
  | String c s' => if is_space c then lstrip s' else s
  end.

Fixpoint drop_spaces (l : list ascii) : list ascii :=
  match l with
  | [] => []
  | c :: l' => if is_space c then drop_spaces l' else l
  end.

Definition rstrip (s : string) : string :=
  of_rev (drop_spaces (rev (list_ascii_of_string s))).

(** [s.strip()] *)
Definition strip (s : string) : string := rstrip (lstrip s).

(** [s.replace(c, by)] for a one-character [c] *)
Fixpoint replace_char (c : ascii) (by_ : string) (s : string) : string :=
  match s with
  | EmptyString => EmptyString
  | String d s' =>
      if Ascii.eqb d c then by_ +:+ replace_char c by_ s'
      else String d (replace_char c by_ s')
  end.

(** [sep.join(parts)] *)
Fixpoint join (sep : string) (parts : list string) : string :=
  match parts with
  | [] => ""
  | [p] => p
  | p :: ps => p +:+ sep +:+ join sep ps
  end.

(** Truthiness of a string: [if s:] *)
Definition truthy (s : string) : bool :=
  match s with EmptyString => false | _ => true end.

End PyStr.

(** ** Python floats and slices *)

Module PyNum.

(** [float(n)] for an [int] [n], rounded to nearest even. *)
Definition float_of_Z (z : Z) : float :=
  SF2Prim (binary_normalize prec emax z 0 false).

Definition float_of_nat (n : nat) : float := float_of_Z (Z.of_nat n).

(** The literal [0.1]: the binary64 number nearest to one tenth. *)
Definition tenth : float := 0x1.999999999999ap-4%float.

(** [sum(xs)] over floats, accumulated from the left (CPython 3.12 and
    later compensate the rounding errors of the sum, which can change the
    last bits of a cosine; no property below depends on them). *)
Definition fsum (xs : list float) : float :=
  fold_left PrimFloat.add xs 0%float.

(** [l[:k]] *)
Definition slice_to {A} (l : list A) (k : Z) : list A :=
  if k <? 0 then firstn (Z.to_nat (Z.of_nat (length l) + k)) l
  else firstn (Z.to_nat k) l.

(** [l[i:]] *)
Definition slice_from {A} (l : list A) (i : Z) : list A :=
  if i <? 0 then skipn (Z.to_nat (Z.of_nat (length l) + i)) l
  else skipn (Z.to_nat i) l.

End PyNum.

(** [0 < x] on floats: what the test [score > 0] asks. *)
Definition float_positive (x : float) : Prop := (0 <? x)%float = true.

(** The specification-level shape of a positive float: a positive finite
    number or [+inf]. *)
Inductive pos_shape : spec_float -> Prop :=
| pos_finite m e : pos_shape (S754_finite false m e)
| pos_infinite : pos_shape (S754_infinity false).

(** ** [list.sort(key=..., reverse=True)] and [sorted(..., reverse=True)]

    CPython's sort is stable, compares keys with [<] only, and keeps the
    stability under [reverse=True].  On keys that [<] orders totally (no NaN)
    the result of such a sort is unique; it is computed here by insertion,
    each element being placed in front of the first one that is not greater. *)

Section PySort.
Context {A : Type} (key : A -> float).

Fixpoint insert_desc (x : A) (l : list A) : list A :=
  match l with
  | [] => [x]
  | y :: l' =>
      if (key x <? key y)%float then y :: insert_desc x l' else x :: l
  end.

Definition sort_desc (l : list A) : list A := foldr insert_desc [] l.

(** [a] may stand in front of [b] in a descending list: [b] is not greater. *)
Definition desc (a b : A) : Prop := (key a <? key b)%float = false.

(** The key of [a] passes the test [key > 0]. *)
Definition key_positive (a : A) : Prop := float_positive (key a).
End PySort.

(** ** memory.py *)

(** [_cosine_similarity(a, b)] *)
Definition _cosine_similarity (a b : list float) : float :=
  match a, b with
  | [], _ | _, [] => 0%float
  | _, _ =>
      if negb (length a =? length b)%nat then 0%float
      else
        let dot := PyNum.fsum (zip_with PrimFloat.mul a b) in
        let na := PrimFloat.sqrt (PyNum.fsum (map (fun x => x * x)%float a)) in
        let nb := PrimFloat.sqrt (PyNum.fsum (map (fun y => y * y)%float b)) in
        if ((na =? 0) || (nb =? 0))%float then 0%float
        else (dot / (na * nb))%float
  end.

(** One conversation turn: [{"role", "text", "timestamp"}]. *)
Record Turn := mkTurn {
  turn_role : string;
  turn_text : string;
  turn_timestamp : float
}.

(** One entry of the vector index: [(id, owner, text, embedding, timestamp)]. *)
Record VectorEntry := mkVec {
  vec_id : string;
  vec_owner : string;
  vec_text : string;
  vec_emb : option (list float);
  vec_ts : float
}.

(** One retrieval result: the dict built by [query_memory]; [retrieve] adds
    the key ["source"]. *)
Record Hit := mkHit {
  hit_id : string;
  hit_owner : string;
  hit_text : string;
  hit_score : float;
  hit_timestamp : float;
  hit_source : option string
}.

(** [embedding_fn(text)]: [None] when the call raises. *)
Definition Embedder : Type := string -> option (list float).

Record MemoryStore := mkStore {
  embedding_fn : option Embedder;
  embedding_dim : option Z;
  conversations : gmap string (list Turn);
  profiles : gmap string (gmap string string);
  vectors : list VectorEntry
}.

(** [MemoryStore(embedding_fn, embedding_dim)] *)
Definition new_store (fn : option Embedder) (dim : option Z) : MemoryStore :=
  mkStore fn dim ∅ ∅ [].

(** Truthiness of an optional int, an optional string, an optional list. *)
Definition int_truthy (o : option Z) : bool :=
  match o with Some n => negb (n =? 0) | None => false end.

Definition str_truthy (o : option string) : bool :=
  match o with Some s => PyStr.truthy s | None => false end.

Definition vec_truthy (o : option (list float)) : bool :=
  match o with Some (_ :: _) => true | _ => false end.

(** The embedding [add_conversation_turn] keeps for [text]. *)
Definition stored_embedding (fn : option Embedder) (dim : option Z)
    (text : string) : option (list float) :=
  match fn with
  | None => None
  | Some f =>
      match f text with
      | None => None
      | Some emb =>
          if int_truthy dim
             && negb (Z.of_nat (length emb) =? default 0 dim)
          then None else Some emb
      end
  end.

(** [add_conversation_turn(convo_id, role, text, timestamp)]; [now] is the
    reading of [time.time()]. *)
Definition add_conversation_turn (st : MemoryStore)
    (convo_id role text : string) (timestamp : option float) (now : float)
    : MemoryStore :=
  let timestamp := default now timestamp in
  let turn := mkTurn role text timestamp in
  let msgs := default [] (conversations st !! convo_id) ++ [turn] in
  let emb := stored_embedding (embedding_fn st) (embedding_dim st) text in
  let vid := "turn:" +:+ convo_id +:+ ":" +:+ pretty (length msgs - 1)%nat in
  mkStore (embedding_fn st) (embedding_dim st)
          (<[convo_id := msgs]> (conversations st))
          (profiles st)
          (vectors st ++ [mkVec vid convo_id text emb timestamp]).

(** [get_conversation(convo_id, limit)] *)
Definition get_conversation (st : MemoryStore) (convo_id : string)
    (limit : option Z) : list Turn :=
  let msgs := default [] (conversations st !! convo_id) in
  if int_truthy limit then PyNum.slice_from msgs (- default 0 limit)
  else msgs.

(** [add_user_profile(user_id, profile)] and [get_user_profile(user_id)] *)
Definition add_user_profile (st : MemoryStore) (user_id : string)
    (profile : gmap string string) : MemoryStore :=
  mkStore (embedding_fn st) (embedding_dim st) (conversations st)
          (<[user_id := profile ∪ default ∅ (profiles st !! user_id)]>
             (profiles st))
          (vectors st).

Definition get_user_profile (st : MemoryStore) (user_id : string)
    : gmap string string :=
  default ∅ (profiles st !! user_id).

(** The [else] branch of the scoring in [query_memory]. *)
Definition heuristic_score (query text : string) : float :=
  let q := PyStr.lower query in
  let t := PyStr.lower text in
  let score := if PyStr.contains q t then 1%float else 0%float in
  if (score =? 0)%float then
    let words : gset string := list_to_set (PyStr.split_ws q) in
    let common := size (filter (fun w => PyStr.contains w t = true) words) in
    (PyNum.float_of_nat common
     / PyNum.float_of_nat (Nat.max 1 (length (PyStr.split_ws q)))
     * PyNum.tenth)%float
  else score.

(** The score of one indexed entry. *)
Definition entry_score (query_emb : option (list float)) (query : string)
    (v : VectorEntry) : float :=
  if vec_truthy query_emb && vec_truthy (vec_emb v)
  then _cosine_similarity (default [] query_emb) (default [] (vec_emb v))
  else heuristic_score query (vec_text v).

(** The query embedding: [None] without an embedder or when it raises. *)
Definition embed_query (st : MemoryStore) (query : string)
    : option (list float) :=
  match embedding_fn st with
  | Some f => f query
  | None => None
  end.

(** One round of the loop over [self.vectors]. *)
Definition query_step (query_emb : option (list float)) (query : string)
    (owner : option string) (results : list Hit) (v : VectorEntry)
    : list Hit :=
  if str_truthy owner && negb (String.eqb (default "" owner) (vec_owner v))
  then results
  else
    let score := entry_score query_emb query v in
    if (0 <? score)%float
    then results ++ [mkHit (vec_id v) (vec_owner v) (vec_text v) score
                           (vec_ts v) None]
    else results.

(** [results] after the loop and the sort, before the slice. *)
Definition ranked_hits (st : MemoryStore) (query : string)
    (owner : option string) : list Hit :=
  let query_emb := embed_query st query in
  let results := fold_left (query_step query_emb query owner) (vectors st) [] in
  sort_desc hit_score results.

(** [query_memory(query, owner, top_k)] *)
Definition query_memory (st : MemoryStore) (query : string)
    (owner : option string) (top_k : Z) : list Hit :=
  PyNum.slice_to (ranked_hits st query owner) top_k.

(** ** rag.py *)

Record RAGManager := mkManager {
  global_store : MemoryStore;
  user_stores : gmap string MemoryStore
}.

(** [RAGManager(embedding_fn, embedding_dim)] *)
Definition new_manager (fn : option Embedder) (dim : option Z) : RAGManager :=
  mkManager (new_store fn dim) ∅.

(** [_get_user_store(user_id)]: the store and the manager after the call. *)
Definition _get_user_store (mgr : RAGManager) (user_id : string)
    : MemoryStore * RAGManager :=
  match user_stores mgr !! user_id with
  | Some store => (store, mgr)
  | None =>
      let store := new_store (embedding_fn (global_store mgr))
                             (embedding_dim (global_store mgr)) in
      (store, mkManager (global_store mgr)
                        (<[user_id := store]> (user_stores mgr)))
  end.

(** [add_global_document(doc_id, text, timestamp)] *)
Definition add_global_document (mgr : RAGManager) (doc_id text : string)
    (timestamp : option float) (now : float) : RAGManager :=
  mkManager
    (add_conversation_turn (global_store mgr) "global" "system"
                           (doc_id +:+ ": " +:+ text) timestamp now)
    (user_stores mgr).

(** [add_user_document(user_id, doc_id, text, timestamp)]: the store object
    held by the map is the one that is appended to. *)
Definition add_user_document (mgr : RAGManager) (user_id doc_id text : string)
    (timestamp : option float) (now : float) : RAGManager :=
  let '(store, mgr1) := _get_user_store mgr user_id in
  let store' := add_conversation_turn store ("user:" +:+ user_id) "system"
                                      (doc_id +:+ ": " +:+ text) timestamp now in
  mkManager (global_store mgr1) (<[user_id := store']> (user_stores mgr1)).

(** [r['source'] = src; results.append(r)] *)
Definition tag_source (src : string) (results : list Hit) (r : Hit)
    : list Hit :=
  results ++ [mkHit (hit_id r) (hit_owner r) (hit_text r) (hit_score r)
                    (hit_timestamp r) (Some src)].

(** One round of the de-duplication loop over the sorted results. *)
Definition dedup_step (acc : gset string * list Hit) (r : Hit)
    : gset string * list Hit :=
  let '(seen_texts, merged) := acc in
  let t := hit_text r in
  if decide (t ∈ seen_texts) then (seen_texts, merged)
  else ({[ t ]} ∪ seen_texts, merged ++ [r]).

Definition dedup_by_text (sorted : list Hit) : list Hit :=
  snd (fold_left dedup_step sorted (∅, [])).

(** [retrieve(query, user_id, top_k_global, top_k_user)]: the merged hits
    and the manager after the call. *)
Definition retrieve (mgr : RAGManager) (query : string)
    (user_id : option string) (top_k_global top_k_user : Z)
    : list Hit * RAGManager :=
  let ghits := query_memory (global_store mgr) query (Some "global")
                            top_k_global in
  let results := fold_left (tag_source "global") ghits [] in
  if str_truthy user_id then
    let uid := default "" user_id in
    let '(store, mgr1) := _get_user_store mgr uid in
    let uhits := query_memory store query (Some ("user:" +:+ uid))
                              top_k_user in
    let results := fold_left (tag_source "user") uhits results in
    (dedup_by_text (sort_desc hit_score results), mgr1)
  else (dedup_by_text (sort_desc hit_score results), mgr).

(** [build_rag_context(query, user_id, k_global, k_user)] *)
Definition build_rag_context (mgr : RAGManager) (query : string)
    (user_id : option string) (k_global k_user : Z) : string * RAGManager :=
  let '(hits, mgr1) := retrieve mgr query user_id k_global k_user in
  match hits with
  | [] => ("", mgr1)
  | _ =>
      let parts :=
        map (fun h => "[" +:+ PyStr.upper (default "" (hit_source h)) +:+ "] "
                      +:+ hit_text h) hits in
      ("Relevant documents (RAG):" +:+ String "010" (PyStr.join (String "010" "") parts),
       mgr1)
  end.

(** ** react.py *)

Module Re.

Definition is_sentence_end (c : ascii) : bool :=
  (Ascii.eqb c "." || Ascii.eqb c "?" || Ascii.eqb c "!")%char.

(** [re.split(r"(?<=[\.\?\!])\s+", s)].  A separator starts at a space
    character that directly follows one of [. ? !] and runs to the end of
    that run of spaces; [skipping] holds inside a separator, [after_end]
    when the previous character is one of [. ? !]. *)
Fixpoint split_sentences_from (skipping after_end : bool)
    (cur : list ascii) (s : string) : list string :=
  match s with
  | EmptyString => [PyStr.of_rev cur]
  | String c s' =>
      if PyStr.is_space c then
        if skipping then split_sentences_from true false cur s'
        else if after_end
             then PyStr.of_rev cur :: split_sentences_from true false [] s'
             else split_sentences_from false false (c :: cur) s'
      else split_sentences_from false (is_sentence_end c) (c :: cur) s'
  end.

Definition split_sentences (s : string) : list string :=
  split_sentences_from false false [] s.

(** The class [[0-9=+\-*/^()]] *)
Definition is_math_char (c : ascii) : bool :=
  let n := PyStr.code c in
  ((48 <=? n) && (n <=? 57))%N
  || (Ascii.eqb c "=" || Ascii.eqb c "+" || Ascii.eqb c "-"
      || Ascii.eqb c "*" || Ascii.eqb c "/" || Ascii.eqb c "^"
      || Ascii.eqb c "(" || Ascii.eqb c ")")%char.

(** [re.search(r"[0-9=+\-*/^()]+", s)] as a truth value *)
Fixpoint search_math (s : string) : bool :=
  match s with
  | EmptyString => false
  | String c s' => is_math_char c || search_math s'
  end.

End Re.

(** One round of the loop over [sentences] in [_decompose_problem]. *)
Definition decompose_step (steps : list string) (s : string) : list string :=
  let s := PyStr.strip s in
  if negb (PyStr.truthy s) then steps
  else if Re.search_math s then steps ++ [s]
  else if PyStr.has_char "," s then
    let parts :=
      List.filter PyStr.truthy (map PyStr.strip (PyStr.split_on "," s)) in
    steps ++ parts
  else steps ++ [s].

(** [_decompose_problem(problem, rag_ctx)] *)
Definition _decompose_problem (problem rag_ctx : string) : list string :=
  let sentences := Re.split_sentences problem in
  let steps := fold_left decompose_step sentences [] in
  if PyStr.truthy rag_ctx
  then ("Consult relevant formulas and proofs: "
        +:+ PyStr.replace_char "010" " | " rag_ctx) :: steps
  else steps.

(** [{"tool": ..., "result": ...}] or [{"tool": ..., "error": ...}] *)
Inductive Verification :=
| VResult (tool result : string)
| VError (tool error : string).

(** [{"step": ..., "verification": ...}] *)
Record PlanStep := mkStep {
  step : string;
  verification : option Verification
}.

(** [{"problem", "rag_context", "plan", "duration"}] *)
Record Plan := mkPlan {
  plan_problem : string;
  plan_rag_context : string;
  plan_steps : list PlanStep;
  plan_duration : float
}.

(** [MCP.sympy_eval(step)] seen from the planner: the string it returns, or
    the message of the exception it raises. *)
Definition Verifier : Type := string -> string + string.

Record ReActPlanner := mkPlanner {
  rag : RAGManager;
  memory : MemoryStore
}.

(** One round of the loop over [decomposition]; [calls] logs every argument
    the verifier is called with. *)
Definition plan_step (sympy_eval : Verifier) (verify : bool)
    (acc : list PlanStep * list string) (s : string)
    : list PlanStep * list string :=
  let '(results, calls) := acc in
  if verify then
    match sympy_eval s with
    | inl sym_result =>
        (results ++ [mkStep s (Some (VResult "sympy" sym_result))],
         calls ++ [s])
    | inr e =>
        (results ++ [mkStep s (Some (VError "sympy" e))], calls ++ [s])
    end
  else (results ++ [mkStep s None], calls).

(** [plan(problem, user_id, verify)]; [t_start] and [t_end] are the two
    readings of [time.time()].  Returns the plan, the planner after the call
    and the log of verifier calls. *)
Definition plan (sympy_eval : Verifier) (p : ReActPlanner) (problem : string)
    (user_id : option string) (verify : bool) (t_start t_end : float)
    : Plan * ReActPlanner * list string :=
  let '(rag_ctx, rag1) := build_rag_context (rag p) problem user_id 3 3 in
  let decomposition := _decompose_problem problem rag_ctx in
  let '(results, calls) :=
    fold_left (plan_step sympy_eval verify) decomposition ([], []) in
  (mkPlan problem rag_ctx results (t_end - t_start)%float,
   mkPlanner rag1 (memory p), calls).

(** ** The specification's reading of [query]

    The definitions below follow the words of the specification; the
    theorems compare them with the loops above. *)

(** A record matches the owner filter when the filter is absent (or the
    empty string, which the code treats alike) or equals its owner. *)
Definition owner_matches (owner : option string) (v : VectorEntry) : bool :=
  negb (str_truthy owner) || String.eqb (default "" owner) (vec_owner v).

(** The hit of a record, with its score. *)
Definition hit_of_entry (query_emb : option (list float)) (query : string)
    (v : VectorEntry) : Hit :=
  mkHit (vec_id v) (vec_owner v) (vec_text v) (entry_score query_emb query v)
        (vec_ts v) None.

(** Every record matching the owner filter, scored, in insertion order. *)
Definition scored_entries (st : MemoryStore) (query : string)
    (owner : option string) : list Hit :=
  map (hit_of_entry (embed_query st query) query)
      (List.filter (owner_matches owner) (vectors st)).

Definition score_positive (h : Hit) : bool := (0 <? hit_score h)%float.

(** The records that remain once those without a positive score are out. *)
Definition remaining (st : MemoryStore) (query : string)
    (owner : option string) : list Hit :=
  List.filter score_positive (scored_entries st query owner).

(** The score is computed heuristically: the query embedding or the
    record's embedding is absent (or empty). *)
Definition heuristic_case (query_emb : option (list float)) (v : VectorEntry)
    : Prop :=
  vec_truthy query_emb = false \/ vec_truthy (vec_emb v) = false.

(** The heuristic as the specification words it: 1.0 on a substring match,
    else 0.1 x (distinct query words present) / (distinct query words). *)
Definition spec_heuristic_score (query text : string) : float :=
  let q := PyStr.lower query in
  let t := PyStr.lower text in
  if PyStr.contains q t then 1%float
  else
    let words : gset string := list_to_set (PyStr.split_ws q) in
    let present := size (filter (fun w => PyStr.contains w t = true) words) in
    (PyNum.tenth * PyNum.float_of_nat present
     / PyNum.float_of_nat (size words))%float.

(** The heuristic as the code computes it, in closed form: the divisor is
    the number of query words counted with repetition, and at least 1. *)
Definition code_heuristic_score (query text : string) : float :=
  let q := PyStr.lower query in
  let t := PyStr.lower text in
  if PyStr.contains q t then 1%float
  else
    let words : gset string := list_to_set (PyStr.split_ws q) in
    let present := size (filter (fun w => PyStr.contains w t = true) words) in
    (PyNum.float_of_nat present
     / PyNum.float_of_nat (Nat.max 1 (length (PyStr.split_ws q)))
     * PyNum.tenth)%float.

(** The most recent [n] elements of a chronological list. *)
Definition most_recent {A} (n : nat) (l : list A) : list A :=
  skipn (length l - n) l.

(** The stored turns of an owner, oldest first. *)
Definition history (st : MemoryStore) (owner : string) : list Turn :=
  default [] (conversations st !! owner).

(** ** Example stores *)

Module Examples.

(** Two turns that both contain the query word "alice". *)
Definition chat : MemoryStore :=
  add_conversation_turn
    (add_conversation_turn (new_store None None)
       "s1" "user" "Hi, my name is Alice." None 1%float)
    "s1" "assistant" "Nice to meet you, Alice." None 2%float.

(** An embedder whose vectors have length 2 for documents and length 3 for
    the query "doc". *)
Definition uneven_embedder : Embedder :=
  fun text =>
    if String.eqb text "doc" then Some [1; 0; 0]%float
    else Some [1; 0]%float.

(** The same embedder, raising on the query "doc". *)
Definition failing_embedder : Embedder :=
  fun text => if String.eqb text "doc" then None else Some [1; 0]%float.

Definition dim2_store (fn : Embedder) : MemoryStore :=
  add_conversation_turn (new_store (Some fn) (Some 2))
    "c" "user" "doc one" None 1%float.

(** One formula, filed as a global document and as a note of alice. *)
Definition shared_doc : RAGManager :=
  add_user_document
    (add_global_document (new_manager None None)
       "pythag" "a^2 + b^2 = c^2" None 1%float)
    "alice" "pythag" "a^2 + b^2 = c^2" None 2%float.


End Examples.

(** ** The specification's reading of the planner *)

(** Steps b and c of the decomposition: the steps one sentence yields. *)
Definition sentence_steps (sentence : string) : list string :=
  let s := PyStr.strip sentence in
  if PyStr.truthy s then
    if Re.search_math s then [s]
    else if PyStr.has_char "," s
         then List.filter PyStr.truthy
                (map PyStr.strip (PyStr.split_on "," s))
         else [s]
  else [].

(** Steps a to d: the sentences' steps, in the order of the sentences. *)
Definition decomposition (problem : string) : list string :=
  flat_map sentence_steps (Re.split_sentences problem).

(** Step 3 of [plan]: the synthetic first step, when there is context. *)
Definition rag_hint (rag_ctx : string) : list string :=
  if PyStr.truthy rag_ctx
  then ["Consult relevant formulas and proofs: "
        +:+ PyStr.replace_char "010" " | " rag_ctx]
  else [].

(** What [plan] records for a step the verifier was called on. *)
Definition verification_of (sympy_eval : Verifier) (s : string)
    : Verification :=
  match sympy_eval s with
  | inl result => VResult "sympy" result
  | inr error => VError "sympy" error
  end.

(** The parts of what [plan] returns. *)
Definition plan_of (r : Plan * ReActPlanner * list string) : Plan :=
  fst (fst r).

Definition planner_of (r : Plan * ReActPlanner * list string)
    : ReActPlanner :=
  snd (fst r).

Definition calls_of (r : Plan * ReActPlanner * list string) : list string :=
  snd r.

(** A per-user store as [_get_user_store] creates it. *)
Definition fresh_user_store (mgr : RAGManager) : MemoryStore :=
  new_store (embedding_fn (global_store mgr))
            (embedding_dim (global_store mgr)).

(** ** The specification's reading of [retrieve] *)

(** A hit tagged with its source. *)
Definition with_source (src : string) (r : Hit) : Hit :=
  mkHit (hit_id r) (hit_owner r) (hit_text r) (hit_score r) (hit_timestamp r)
        (Some src).

(** The global hits of a retrieval. *)
Definition global_hits (mgr : RAGManager) (query : string) (top_k_global : Z)
    : list Hit :=
  query_memory (global_store mgr) query (Some "global") top_k_global.

(** The hits of user [uid]'s store. *)
Definition user_hits (mgr : RAGManager) (query uid : string) (top_k_user : Z)
    : list Hit :=
  query_memory (fst (_get_user_store mgr uid)) query
               (Some ("user:" +:+ uid)) top_k_user.

(** Global hits, then user hits, each tagged with its source. *)
Definition combined_hits (mgr : RAGManager) (query : string)
    (user_id : option string) (top_k_global top_k_user : Z) : list Hit :=
  map (with_source "global") (global_hits mgr query top_k_global)
  ++ (if str_truthy user_id
      then map (with_source "user")
               (user_hits mgr query (default "" user_id) top_k_user)
      else []).


(** The states a manager goes through: built by the constructor and changed
    by its three operations. *)
Inductive reachable : RAGManager -> Prop :=
| reach_new fn dim : reachable (new_manager fn dim)
| reach_add_global mgr doc_id text timestamp now :
    reachable mgr ->
    reachable (add_global_document mgr doc_id text timestamp now)
| reach_add_user mgr user_id doc_id text timestamp now :
    reachable mgr ->
    reachable (add_user_document mgr user_id doc_id text timestamp now)
| reach_retrieve mgr query user_id top_k_global top_k_user :
    reachable mgr ->
    reachable (snd (retrieve mgr query user_id top_k_global top_k_user)).




(** ** The specification's reading of the sentence split

    [re.split] cuts a string at the successive leftmost matches of the
    pattern.  For [(?<=[\.\?\!])\s+] a match is a maximal run of spaces whose
    first space directly follows one of [. ? !]. *)

(** The list holds one of [. ? !] directly followed by a space: a place
    where a separator starts. *)
Fixpoint has_boundary (l : list ascii) : bool :=
  match l with
  | a :: ((b :: _) as l') =>
      (Re.is_sentence_end a && PyStr.is_space b) || has_boundary l'
  | _ => false
  end.

Definition starts_with_space (l : list ascii) : bool :=
  match l with
  | c :: _ => PyStr.is_space c
  | [] => false
  end.

(** [regex_split s pieces]: [pieces] are what is left of [s] when the
    separators are cut out.  A piece holds no start of a separator; a
    separator is a non-empty run of spaces that follows a piece ending in one
    of [. ? !], and runs as far as the spaces go. *)
Inductive regex_split : list ascii -> list (list ascii) -> Prop :=
| rs_last p :
    has_boundary p = false -> regex_split p [p]
| rs_cons p sep rest pieces :
    has_boundary p = false ->
    Re.is_sentence_end (List.last p "a"%char) = true ->
    sep <> [] ->
    forallb PyStr.is_space sep = true ->
    starts_with_space rest = false ->
    regex_split rest pieces ->
    regex_split (p ++ sep ++ rest) (p :: pieces).

(** ** More of memory.py, rag.py, react.py *)

Definition newline : string := String "010" "".

(** One round of the loop over [items] in [build_memory_prompt].
    [strftime ts] stands for
    [time.strftime("%Y-%m-%d %H:%M:%S", time.localtime(ts))]: [None] when
    [time.localtime] raises, as it does for a timestamp that is infinite, not
    a number or beyond the platform's range.  Nothing catches the exception,
    so it ends the loop and the call. *)
Definition prompt_step (strftime : float -> option string)
    (parts : option (list string)) (it : Hit) : option (list string) :=
  match parts with
  | None => None
  | Some parts =>
      match strftime (hit_timestamp it) with
      | None => None
      | Some t => Some (parts ++ ["[" +:+ t +:+ "] " +:+ hit_text it])
      end
  end.

(** [build_memory_prompt(convo_id, query, k)]; [None] when the call raises. *)
Definition build_memory_prompt (strftime : float -> option string)
    (st : MemoryStore) (convo_id query : string) (k : Z) : option string :=
  let items := query_memory st query (Some convo_id) k in
  match fold_left (prompt_step strftime) items (Some []) with
  | None => None
  | Some [] => Some ""
  | Some parts => Some ("Relevant past conversation snippets:" +:+ newline
                        +:+ PyStr.join newline parts)
  end.

(** [ReActPlanner(embedding_fn, embedding_dim)] *)
Definition new_planner (fn : option Embedder) (dim : option Z)
    : ReActPlanner :=
  mkPlanner (new_manager fn dim) (new_store fn dim).

(** [add_domain_doc(doc_id, text)] *)
Definition add_domain_doc (p : ReActPlanner) (doc_id text : string)
    (now : float) : ReActPlanner :=
  mkPlanner (add_global_document (rag p) doc_id text None now) (memory p).

(** [add_user_note(user_id, doc_id, text)] *)
Definition add_user_note (p : ReActPlanner) (user_id doc_id text : string)
    (now : float) : ReActPlanner :=
  mkPlanner (add_user_document (rag p) user_id doc_id text None now)
            (memory p).

(** ** Readings used by the further properties *)

(** The states a store goes through. *)
Inductive reachable_store : MemoryStore -> Prop :=
| store_new fn dim : reachable_store (new_store fn dim)
| store_turn st convo_id role text timestamp now :
    reachable_store st ->
    reachable_store (add_conversation_turn st convo_id role text timestamp now)
| store_profile st user_id profile :
    reachable_store st ->
    reachable_store (add_user_profile st user_id profile).

(** The index entries of one owner, in insertion order. *)
Definition entries_of (st : MemoryStore) (owner : string)
    : list VectorEntry :=
  List.filter (fun v => String.eqb (vec_owner v) owner) (vectors st).

(** The index entry of the [i]-th turn of an owner. *)
Definition indexed_turn (fn : option Embedder) (dim : option Z)
    (owner : string) (i : nat) (t : Turn) : VectorEntry :=
  mkVec ("turn:" +:+ owner +:+ ":" +:+ pretty i) owner (turn_text t)
        (stored_embedding fn dim (turn_text t)) (turn_timestamp t).

(** The de-duplication loop as a function of the texts seen so far. *)
Fixpoint dedup_from (seen : gset string) (l : list Hit) : list Hit :=
  match l with
  | [] => []
  | r :: l' =>
      if decide (hit_text r ∈ seen) then dedup_from seen l'
      else r :: dedup_from ({[ hit_text r ]} ∪ seen) l'
  end.

(** The characters of a string. *)
Definition chars (s : string) : list ascii := list_ascii_of_string s.

(** The index of a user's store; empty when the user has no store. *)
Definition user_vectors (mgr : RAGManager) (uid : string)
    : list VectorEntry :=
  match user_stores mgr !! uid with
  | Some store => vectors store
  | None => []
  end.

(** Every store of the manager holds entries of its own scope only. *)
Definition scoped (mgr : RAGManager) : Prop :=
  (forall v, In v (vectors (global_store mgr)) -> vec_owner v = "global")
  /\ (forall uid st v, user_stores mgr !! uid = Some st ->
        In v (vectors st) -> vec_owner v = "user:" +:+ uid).

(** The text [build_rag_context] makes of the hits. *)
Definition render_context (hits : list Hit) : string :=
  match hits with
  | [] => ""
  | _ =>
      "Relevant documents (RAG):" +:+ newline
      +:+ PyStr.join newline
            (map (fun h => "[" +:+ PyStr.upper (default "" (hit_source h))
                           +:+ "] " +:+ hit_text h) hits)
  end.

(** ** mcp.py: [desmos_graph] *)

Module Url.

(** Each character replaced by its encoding. *)
Fixpoint encode_chars (enc : ascii -> string) (s : string) : string :=
  match s with
  | EmptyString => EmptyString
  | String c s' => enc c +:+ encode_chars enc s'
  end.

(** One hexadecimal digit, for [n < 16]. *)
Definition hex_digit (upper : bool) (n : N) : ascii :=
  if (n <? 10)%N then ascii_of_N (48 + n)
  else ascii_of_N ((if upper then 55 else 87) + n).

Definition dquote : ascii := "034"%char.
Definition backslash : ascii := "092"%char.

(** [json.dumps] of a string, between the quotes ([ensure_ascii] is on):
    the two-character escapes of [ESCAPE_DCT], the printable ASCII
    characters as they are, [\u00xx] for the rest. *)
Definition json_escape_char (c : ascii) : string :=
  let n := PyStr.code c in
  if Ascii.eqb c dquote then String backslash (String dquote "")
  else if Ascii.eqb c backslash then String backslash (String backslash "")
  else if (n =? 8)%N then String backslash "b"
  else if (n =? 12)%N then String backslash "f"
  else if (n =? 10)%N then String backslash "n"
  else if (n =? 13)%N then String backslash "r"
  else if (n =? 9)%N then String backslash "t"
  else if ((32 <=? n) && (n <=? 126))%N then String c ""
  else String backslash
         (String "u" (String "0" (String "0"
            (String (hex_digit false (n / 16))
               (String (hex_digit false (n mod 16)) ""))))).

Definition json_string (s : string) : string :=
  String dquote (encode_chars json_escape_char s +:+ String dquote "").

(** [json.dumps({"expressions": {"list": [{"latex": expression}]}})] *)
Definition json_state (expression : string) : string :=
  "{" +:+ json_string "expressions" +:+ ": {" +:+ json_string "list"
  +:+ ": [{" +:+ json_string "latex" +:+ ": " +:+ json_string expression
  +:+ "}]}}".

(** [_ALWAYS_SAFE]: letters, digits and [_ . - ~]. *)
Definition always_safe (c : ascii) : bool :=
  let n := PyStr.code c in
  ((65 <=? n) && (n <=? 90) || (97 <=? n) && (n <=? 122)
   || (48 <=? n) && (n <=? 57))%N
  || (Ascii.eqb c "_" || Ascii.eqb c "." || Ascii.eqb c "-"
      || Ascii.eqb c "~")%char.

(** ['%{:02X}'.format(byte)] *)
Definition quote_byte (b : N) : string :=
  String "%" (String (hex_digit true (b / 16))
                (String (hex_digit true (b mod 16)) "")).

(** The UTF-8 bytes of a code point below 256. *)
Definition utf8 (n : N) : list N :=
  if (n <? 128)%N then [n] else [(192 + n / 64)%N; (128 + n mod 64)%N].

(** [urllib.parse.quote] on one character, with the default [safe='/']. *)
Definition quote_char (c : ascii) : string :=
  if always_safe c || Ascii.eqb c "/" then String c ""
  else fold_right (fun b acc => quote_byte b +:+ acc) "" (utf8 (PyStr.code c)).

(** [urllib.parse.quote(s)] *)
Definition quote (s : string) : string := encode_chars quote_char s.

(** [desmos_graph(expression)] *)
Definition desmos_graph (expression : string) : string :=
  "https://www.desmos.com/calculator" +:+ "?state="
  +:+ quote (json_state expression).

(** [geogebra_graph(expression)] *)
Definition geogebra_graph (expression : string) : string :=
  "https://www.geogebra.org/graphing".

(** What a URL query value may hold without further quoting. *)
Definition query_char (c : ascii) : bool :=
  always_safe c || Ascii.eqb c "/" || Ascii.eqb c "%".

Definition hex_value (c : ascii) : option N :=
  let n := PyStr.code c in
  if ((48 <=? n) && (n <=? 57))%N then Some (n - 48)%N
  else if ((65 <=? n) && (n <=? 70))%N then Some (n - 55)%N
  else if ((97 <=? n) && (n <=? 102))%N then Some (n - 87)%N
  else None.

(** The byte of a leading [%XX], and what follows it. *)
Definition percent_head (s : string) : option (N * string) :=
  match s with
  | String p (String h (String l r)) =>
      if Ascii.eqb p "%" then
        match hex_value h, hex_value l with
        | Some a, Some b => Some ((16 * a + b)%N, r)
        | _, _ => None
        end
      else None
  | _ => None
  end.

(** Reading back the first character of a quoted string. *)
Definition unquote_head (s : string) : option (ascii * string) :=
  match s with
  | EmptyString => None
  | String c r =>
      if Ascii.eqb c "%" then
        match percent_head s with
        | Some (b, r1) =>
            if (b <? 128)%N then Some (ascii_of_N b, r1)
            else match percent_head r1 with
                 | Some (b2, r2) =>
                     Some (ascii_of_N ((b - 192) * 64 + (b2 - 128)), r2)
                 | None => None
                 end
        | None => None
        end
      else Some (c, r)
  end.

(** Reading back the first character of an escaped JSON string body; a bare
    quote ends the body. *)
Definition unescape_head (s : string) : option (ascii * string) :=
  match s with
  | EmptyString => None
  | String c r =>
      if Ascii.eqb c dquote then None
      else if Ascii.eqb c backslash then
        match r with
        | String x r1 =>
            if Ascii.eqb x dquote then Some (dquote, r1)
            else if Ascii.eqb x backslash then Some (backslash, r1)
            else if Ascii.eqb x "b" then Some (ascii_of_N 8, r1)
            else if Ascii.eqb x "f" then Some (ascii_of_N 12, r1)
            else if Ascii.eqb x "n" then Some (ascii_of_N 10, r1)
            else if Ascii.eqb x "r" then Some (ascii_of_N 13, r1)
            else if Ascii.eqb x "t" then Some (ascii_of_N 9, r1)
            else match r1 with
                 | String _ (String _ (String h (String l r2))) =>
                     match hex_value h, hex_value l with
                     | Some a, Some b => Some (ascii_of_N (16 * a + b), r2)
                     | _, _ => None
                     end
                 | _ => None
                 end
        | EmptyString => None
        end
      else Some (c, r)
  end.

End Url.

(** ** The specification's reading of the decomposition

    The words of the specification, with nothing of the code's scanner, of
    its [strip] and [split] or of its character tests in them: the
    characters are listed, and what "trimmed", "split on commas" and "split
    into sentences" mean is said by what the parts put together give. *)

Module Spec.

(** "sentence-ending punctuation" *)
Definition sentence_end (c : ascii) : bool :=
  existsb (Ascii.eqb c) (list_ascii_of_string ".?!").

(** "any character in 0-9 = + - * / ^ ( )" *)
Definition equation_char (c : ascii) : bool :=
  existsb (Ascii.eqb c) (list_ascii_of_string "0123456789=+-*/^()").

(** "whitespace": the code points below 256 that are spaces to Python,
    TAB to CR, FS to US and the blank, NEL and the no-break space. *)
Definition whitespace (c : ascii) : bool :=
  existsb (N.eqb (N_of_ascii c))
          [9; 10; 11; 12; 13; 28; 29; 30; 31; 32; 133; 160]%N.

Definition comma : ascii := ","%char.

Definition all_whitespace (l : list ascii) : Prop :=
  Forall (fun c => whitespace c = true) l.

(** The first character, if there is one, is no whitespace. *)
Definition no_leading_space (l : list ascii) : Prop :=
  forall c r, l = c :: r -> whitespace c = false.

(** The last character, if there is one, is no whitespace. *)
Definition no_trailing_space (l : list ascii) : Prop :=
  forall r c, l = r ++ [c] -> whitespace c = false.

(** [t] is [s] trimmed: [s] without the whitespace at its two ends. *)
Definition trimmed (s t : list ascii) : Prop :=
  exists before after,
    s = before ++ t ++ after
    /\ all_whitespace before /\ all_whitespace after
    /\ no_leading_space t /\ no_trailing_space t.

(** The pieces put together again, a comma between two of them. *)
Fixpoint joined (pieces : list (list ascii)) : list ascii :=
  match pieces with
  | [] => []
  | [p] => p
  | p :: rest => p ++ comma :: joined rest
  end.

(** [s] split on commas. *)
Definition comma_pieces (s : list ascii) (pieces : list (list ascii))
    : Prop :=
  pieces <> []
  /\ Forall (fun p => ~ In comma p) pieces
  /\ s = joined pieces.

(** Nowhere in [p] does whitespace directly follow sentence-ending
    punctuation. *)
Definition no_break (p : list ascii) : Prop :=
  forall l a b r,
    p = l ++ a :: b :: r -> sentence_end a = true -> whitespace b = false.

Definition ends_sentence (p : list ascii) : Prop :=
  exists q c, p = q ++ [c] /\ sentence_end c = true.

(** [s] split into sentences "on sentence-ending punctuation followed by
    whitespace": a sentence runs up to and including the first punctuation
    mark that whitespace follows; all the whitespace there is dropped. *)
Inductive sentences : list ascii -> list (list ascii) -> Prop :=
| sentences_last p :
    no_break p -> sentences p [p]
| sentences_cons p gap rest pieces :
    no_break p -> ends_sentence p ->
    gap <> [] -> all_whitespace gap ->
    no_leading_space rest ->
    sentences rest pieces ->
    sentences (p ++ gap ++ rest) (p :: pieces).

Definition has_equation_char (t : list ascii) : Prop :=
  exists c, In c t /\ equation_char c = true.

Definition nonempty (t : list ascii) : bool :=
  match t with [] => false | _ => true end.

(** Steps b and c: the steps of one sentence. *)
Inductive steps_of_sentence : list ascii -> list (list ascii) -> Prop :=
| steps_blank s :
    trimmed s [] -> steps_of_sentence s []
| steps_equation s t :
    trimmed s t -> t <> [] -> has_equation_char t ->
    steps_of_sentence s [t]
| steps_commas s t pieces steps :
    trimmed s t -> t <> [] -> ~ has_equation_char t -> In comma t ->
    comma_pieces t pieces -> Forall2 trimmed pieces steps ->
    steps_of_sentence s (List.filter nonempty steps)
| steps_whole s t :
    trimmed s t -> t <> [] -> ~ has_equation_char t -> ~ In comma t ->
    steps_of_sentence s [t].

(** The decomposition: the steps of the sentences, in sentence order. *)
Definition decomposes (problem : list ascii) (steps : list (list ascii))
    : Prop :=
  exists sentences_ steps_,
    sentences problem sentences_
    /\ Forall2 steps_of_sentence sentences_ steps_
    /\ steps = concat steps_.

End Spec.

(** * Properties *)

(** ** The order of binary64 numbers

    [<] and [==] on floats are read through their specification over
    [spec_float].  Scores that pass the test [score > 0] are positive finite
    numbers or [+inf]; on those [<] is a strict weak order. *)

Module FloatOrder.

Lemma Prim2SF_zero : Prim2SF 0%float = S754_zero false.
Proof. reflexivity. Qed.

Lemma SFcompare_refl (f : spec_float) :
  SFcompare f f = Some Eq \/ SFcompare f f = None.
Proof.
  destruct f as [s | s | | s m e]; simpl; auto; destruct s; auto;
    rewrite Z.compare_refl, Pos.compare_cont_refl; auto.
Qed.

Ltac cmp_cases :=
  repeat (match goal with
    | |- context [Z.compare ?a ?b] => destruct (Z.compare_spec a b)
    | H : context [Z.compare ?a ?b] |- _ => destruct (Z.compare_spec a b)
    | |- context [Pos.compare_cont Eq ?a ?b] =>
        change (Pos.compare_cont Eq a b) with (Pos.compare a b) in *;
        destruct (Pos.compare_spec a b)
    | H : context [Pos.compare_cont Eq ?a ?b] |- _ =>
        change (Pos.compare_cont Eq a b) with (Pos.compare a b) in *;
        destruct (Pos.compare_spec a b)
    end; cbv beta iota in *; subst);
  try discriminate; try reflexivity; try lia.

Lemma SFltb_pos_asym f g :
  pos_shape f -> pos_shape g -> SFltb f g = true -> SFltb g f = false.
Proof.
  intros [m1 e1|] [m2 e2|]; cbv [SFltb SFcompare]; intros H; cmp_cases.
Qed.

Lemma SFltb_pos_negtrans f g h :
  pos_shape f -> pos_shape g -> pos_shape h ->
  SFltb f g = false -> SFltb g h = false -> SFltb f h = false.
Proof.
  intros [m1 e1|] [m2 e2|] [m3 e3|]; cbv [SFltb SFcompare]; intros H1 H2;
    cmp_cases.
Qed.

Lemma SFeqb_pos_not_lt f g h :
  pos_shape f -> pos_shape g ->
  SFeqb f h = true -> SFeqb g h = true -> SFltb f g = false.
Proof.
  intros [m1 e1|] [m2 e2|]; destruct h as [[] | [] | | [] m3 e3];
    cbv [SFltb SFeqb SFcompare]; intros H1 H2; cmp_cases.
Qed.

Lemma positive_shape (x : float) : float_positive x -> pos_shape (Prim2SF x).
Proof.
  unfold float_positive. rewrite ltb_spec, Prim2SF_zero. unfold SFltb.
  destruct (Prim2SF x) as [[] | [] | | [] m e]; simpl; try discriminate;
    constructor.
Qed.

Lemma ltb_irrefl (x : float) : (x <? x)%float = false.
Proof.
  rewrite ltb_spec. unfold SFltb.
  destruct (SFcompare_refl (Prim2SF x)) as [-> | ->]; reflexivity.
Qed.

Lemma ltb_asym (x y : float) :
  float_positive x -> float_positive y ->
  (x <? y)%float = true -> (y <? x)%float = false.
Proof.
  intros Hx Hy. rewrite !ltb_spec.
  apply SFltb_pos_asym; auto using positive_shape.
Qed.

Lemma ltb_negtrans (x y z : float) :
  float_positive x -> float_positive y -> float_positive z ->
  (x <? y)%float = false -> (y <? z)%float = false ->
  (x <? z)%float = false.
Proof.
  intros Hx Hy Hz. rewrite !ltb_spec.
  apply SFltb_pos_negtrans; auto using positive_shape.
Qed.

Lemma eqb_not_ltb (x y s : float) :
  float_positive x -> float_positive y ->
  (x =? s)%float = true -> (y =? s)%float = true ->
  (x <? y)%float = false.
Proof.
  intros Hx Hy. rewrite !FloatAxioms.eqb_spec, ltb_spec.
  apply SFeqb_pos_not_lt; auto using positive_shape.
Qed.

Lemma positive_not_leb_zero (x : float) :
  float_positive x -> (x <=? 0)%float = false.
Proof.
  intros Hx. apply positive_shape in Hx.
  rewrite leb_spec, Prim2SF_zero. unfold SFleb.
  destruct Hx; reflexivity.
Qed.

End FloatOrder.

(** ** The sort *)

Section SortFacts.
Context {A : Type} (key : A -> float).

Lemma insert_desc_perm (x : A) (l : list A) :
  Permutation (insert_desc key x l) (x :: l).
Proof.
  induction l as [|y l IH]; simpl; [reflexivity|].
  destruct (key x <? key y)%float; [|reflexivity].
  rewrite IH. apply perm_swap.
Qed.

Lemma sort_desc_perm (l : list A) : Permutation (sort_desc key l) l.
Proof.
  induction l as [|x l IH]; simpl; [reflexivity|].
  rewrite insert_desc_perm. now constructor.
Qed.

Lemma sort_desc_In (l : list A) (a : A) : In a (sort_desc key l) <-> In a l.
Proof.
  split; apply Permutation_in;
    [apply sort_desc_perm | symmetry; apply sort_desc_perm].
Qed.

(** Stability: a class of elements none of which is below another keeps
    its order. *)
Lemma insert_desc_filter (P : A -> bool) (x : A) (l : list A) :
  (forall b, In b l -> P x = true -> P b = true -> desc key x b) ->
  List.filter P (insert_desc key x l) = List.filter P (x :: l).
Proof.
  induction l as [|y l IH]; intros H; [reflexivity|].
  cbn [insert_desc]. destruct (key x <? key y)%float eqn:Hlt; [|reflexivity].
  cbn [List.filter]. rewrite IH by (intros; apply H; simpl; auto).
  cbn [List.filter].
  destruct (P x) eqn:Px, (P y) eqn:Py; try reflexivity.
  exfalso. specialize (H y (or_introl eq_refl) eq_refl Py).
  unfold desc in H. congruence.
Qed.

Lemma sort_desc_stable (P : A -> bool) (l : list A) :
  (forall a b, In a l -> In b l -> P a = true -> P b = true -> desc key a b) ->
  List.filter P (sort_desc key l) = List.filter P l.
Proof.
  induction l as [|x l IH]; intros H; [reflexivity|].
  cbn [sort_desc foldr]. fold (sort_desc key l).
  rewrite insert_desc_filter.
  - cbn [List.filter]. rewrite IH; [reflexivity|].
    intros a b Ha Hb. apply H; simpl; auto.
  - intros b Hb. apply (proj1 (sort_desc_In _ _)) in Hb. apply H; simpl; auto.
Qed.

Lemma insert_desc_sorted (x : A) (l : list A) :
  key_positive key x -> Forall (key_positive key) l ->
  StronglySorted (desc key) l ->
  StronglySorted (desc key) (insert_desc key x l).
Proof.
  intros Hx Hl Hs. induction Hs as [|y l Hs IH Hy]; simpl.
  - repeat constructor.
  - inversion Hl as [|? ? Hpy Hpl]; subst.
    destruct (key x <? key y)%float eqn:Hlt.
    + constructor; [auto|].
      apply List.Forall_forall. intros b Hb.
      apply (Permutation_in _ (insert_desc_perm x l)) in Hb.
      destruct Hb as [<- | Hb].
      * apply FloatOrder.ltb_asym; auto.
      * rewrite List.Forall_forall in Hy. auto.
    + constructor; [constructor; auto|].
      constructor; [exact Hlt|].
      apply List.Forall_forall. intros b Hb.
      rewrite List.Forall_forall in Hy, Hpl.
      apply (FloatOrder.ltb_negtrans _ (key y)); auto.
      * apply Hpl; auto.
      * apply Hy; auto.
Qed.

Lemma sort_desc_sorted (l : list A) :
  Forall (key_positive key) l -> StronglySorted (desc key) (sort_desc key l).
Proof.
  induction l as [|x l IH]; intros H; simpl; [constructor|].
  inversion H; subst. apply insert_desc_sorted; auto.
  apply List.Forall_forall. intros b Hb. apply (proj1 (sort_desc_In _ _)) in Hb.
  rewrite List.Forall_forall in H3. auto.
Qed.

End SortFacts.


(** ** Substrings *)

Lemma prefix_app (q t : string) :
  String.prefix q t = true <-> exists post, t = q +:+ post.
Proof.
  revert t. induction q as [|a q IH]; intros t.
  - split; [intros _; now exists t | intros _; now destruct t].
  - destruct t as [|b t]; simpl.
    + split; [discriminate | intros [? [=]]].
    + destruct (ascii_dec a b) as [->|Hne].
      * rewrite IH. split; intros [post H]; exists post.
        -- now rewrite H.
        -- now injection H.
      * split; [discriminate|]. intros [post [= ? _]]. congruence.
Qed.

(** [q in t] holds exactly when [t] is [pre + q + post]. *)
Lemma contains_spec (q t : string) :
  PyStr.contains q t = true <-> exists pre post, t = pre +:+ q +:+ post.
Proof.
  induction t as [|b t IH].
  - cbn [PyStr.contains]. rewrite orb_false_r, prefix_app. split.
    + intros [post H]. now exists "", post.
    + intros (pre & post & H). destruct pre; [now exists post|discriminate].
  - cbn [PyStr.contains]. rewrite orb_true_iff, IH, prefix_app. split.
    + intros [[post H] | (pre & post & H)].
      * now exists "", post.
      * exists (String b pre), post. simpl. now rewrite H.
    + intros (pre & post & H). destruct pre as [|c pre].
      * left. now exists post.
      * right. injection H as _ H. now exists pre, post.
Qed.

(** ** The record store: [query_memory] *)

Lemma owner_skip_matches (owner : option string) (v : VectorEntry) :
  str_truthy owner && negb (String.eqb (default "" owner) (vec_owner v))
  = negb (owner_matches owner v).
Proof.
  unfold owner_matches.
  destruct (str_truthy owner), (String.eqb _ _); reflexivity.
Qed.

(** The loop appends, in insertion order, the hit of every matching record
    whose score is positive. *)
Lemma query_loop (qe : option (list float)) (query : string)
    (owner : option string) (vs : list VectorEntry) (acc : list Hit) :
  fold_left (query_step qe query owner) vs acc
  = acc ++ List.filter score_positive
             (map (hit_of_entry qe query) (List.filter (owner_matches owner) vs)).
Proof.
  revert acc. induction vs as [|v vs IH]; intros acc; simpl.
  - now rewrite app_nil_r.
  - rewrite IH. unfold query_step at 1. rewrite owner_skip_matches.
    destruct (owner_matches owner v); simpl; [|reflexivity].
    unfold score_positive at 2. simpl.
    destruct (0 <? entry_score qe query v)%float; [|reflexivity].
    now rewrite <- app_assoc.
Qed.

Lemma ranked_hits_sorted_remaining (st : MemoryStore) (query : string)
    (owner : option string) :
  ranked_hits st query owner = sort_desc hit_score (remaining st query owner).
Proof. unfold ranked_hits. now rewrite query_loop. Qed.

Lemma remaining_positive (st : MemoryStore) (query : string)
    (owner : option string) :
  Forall (key_positive hit_score) (remaining st query owner).
Proof.
  apply List.Forall_forall. intros h Hh.
  apply filter_In in Hh. exact (proj2 Hh).
Qed.

Lemma ranked_perm (st : MemoryStore) (query : string) (owner : option string) :
  Permutation (ranked_hits st query owner) (remaining st query owner).
Proof. rewrite ranked_hits_sorted_remaining. apply sort_desc_perm. Qed.

Lemma In_firstn_list {A} (n : nat) (l : list A) (a : A) :
  In a (firstn n l) -> In a l.
Proof.
  intros H. rewrite <- (firstn_skipn n l). apply in_or_app. now left.
Qed.

Lemma slice_to_In {A} (l : list A) (k : Z) (a : A) :
  In a (PyNum.slice_to l k) -> In a l.
Proof.
  unfold PyNum.slice_to. destruct (k <? 0); apply In_firstn_list.
Qed.

(** Every hit that [query_memory] returns is the hit of a stored record that
    matches the filter, and its score is positive. *)
Lemma query_memory_In (st : MemoryStore) (query : string)
    (owner : option string) (k : Z) (h : Hit) :
  In h (query_memory st query owner k) ->
  float_positive (hit_score h)
  /\ exists v, In v (vectors st) /\ owner_matches owner v = true
               /\ h = hit_of_entry (embed_query st query) query v.
Proof.
  intros Hh. apply slice_to_In in Hh.
  apply (Permutation_in _ (ranked_perm st query owner)) in Hh.
  apply filter_In in Hh. destruct Hh as [Hin Hpos]. split; [exact Hpos|].
  apply in_map_iff in Hin. destruct Hin as (v & <- & Hv).
  apply filter_In in Hv. exists v. tauto.
Qed.

(** C5: for a non-negative [top_k], [query_memory] returns the first [top_k]
    hits of a ranking that holds exactly the matching records with a positive
    score (no record with score <= 0; a cosine that is not a number fails the
    test [score > 0] with them), in descending order of score, hits of equal
    score standing in the order of insertion. *)
Theorem query_memory_ranking (st : MemoryStore) (query : string)
    (owner : option string) (top_k : Z) :
  0 <= top_k ->
  let ranked := ranked_hits st query owner in
  query_memory st query owner top_k = firstn (Z.to_nat top_k) ranked
  /\ Permutation ranked (remaining st query owner)
  /\ (forall h, In h (scored_entries st query owner) ->
                (hit_score h <=? 0)%float = true -> ~ In h ranked)
  /\ StronglySorted (desc hit_score) ranked
  /\ (forall s : float,
        List.filter (fun h => (hit_score h =? s)%float) ranked
        = List.filter (fun h => (hit_score h =? s)%float)
                      (remaining st query owner)).
Proof.
  intros Hk ranked. subst ranked. repeat split.
  - unfold query_memory, PyNum.slice_to.
    destruct (top_k <? 0) eqn:E; [lia | reflexivity].
  - apply ranked_perm.
  - intros h _ Hle Hin.
    apply (Permutation_in _ (ranked_perm st query owner)) in Hin.
    apply filter_In in Hin. destruct Hin as [_ Hpos].
    apply FloatOrder.positive_not_leb_zero in Hpos. congruence.
  - rewrite ranked_hits_sorted_remaining.
    apply sort_desc_sorted, remaining_positive.
  - intros s. rewrite ranked_hits_sorted_remaining.
    apply sort_desc_stable. intros a b Ha Hb Hea Heb.
    pose proof (remaining_positive st query owner) as Hp.
    rewrite List.Forall_forall in Hp.
    apply (FloatOrder.eqb_not_ltb _ _ s); auto; apply Hp; auto.
Qed.

Lemma query_memory_ranking_witness :
  0 <= 1
  /\ query_memory Examples.chat "alice" (Some "s1") 1
     = firstn 1 (ranked_hits Examples.chat "alice" (Some "s1")).
Proof.
  split; [lia|].
  apply (query_memory_ranking Examples.chat "alice" (Some "s1") 1). lia.
Defined.

(** C3, as the specification states it, fails: with two matching records and
    [top_k = -1] the query returns one hit, not the empty sequence. *)
Lemma negative_top_k_not_clamped :
  ~ (forall (st : MemoryStore) (query : string) (owner : option string)
            (top_k : Z),
        top_k < 0 -> query_memory st query owner top_k = []).
Proof.
  intros H.
  specialize (H Examples.chat "alice" (Some "s1") (-1) eq_refl).
  vm_compute in H. discriminate H.
Qed.

(** C3, amended: a negative [top_k = -m] is a Python slice bound, not a
    clamp.  The call returns (it cannot raise) the ranking without its last
    [m] hits, which is empty exactly when at most [m] records qualify. *)
Theorem query_memory_negative_top_k (st : MemoryStore) (query : string)
    (owner : option string) (top_k : Z) :
  top_k < 0 ->
  let ranked := ranked_hits st query owner in
  let m := Z.to_nat (- top_k) in
  query_memory st query owner top_k = firstn (length ranked - m) ranked
  /\ (query_memory st query owner top_k = [] <-> (length ranked <= m)%nat).
Proof.
  intros Hk ranked m.
  assert (E : query_memory st query owner top_k
              = firstn (length ranked - m) ranked).
  { unfold query_memory, PyNum.slice_to. fold ranked.
    destruct (top_k <? 0) eqn:E; [|lia].
    f_equal. subst m. lia. }
  split; [exact E|]. rewrite E. split.
  - intros Hnil. apply (f_equal (@length Hit)) in Hnil.
    rewrite length_firstn in Hnil. simpl in Hnil. lia.
  - intros Hle. replace (length ranked - m)%nat with 0%nat by lia.
    reflexivity.
Qed.

Lemma query_memory_negative_top_k_witness :
  -1 < 0
  /\ query_memory Examples.chat "alice" (Some "s1") (-1)
     = firstn (length (ranked_hits Examples.chat "alice" (Some "s1")) - 1)
              (ranked_hits Examples.chat "alice" (Some "s1")).
Proof.
  split; [lia|].
  apply (query_memory_negative_top_k Examples.chat "alice" (Some "s1") (-1)).
  lia.
Defined.

(** ** The heuristic score *)

(** C2, as the specification states it, fails: for the query "a a b" and the
    text "a" the code divides by the three query words, the claim by the two
    distinct ones. *)
Lemma heuristic_divisor_counts_repetitions :
  ~ (forall (query_emb : option (list float)) (query : string)
            (v : VectorEntry),
        heuristic_case query_emb v ->
        entry_score query_emb query v
        = spec_heuristic_score query (vec_text v)).
Proof.
  intros H.
  specialize (H None "a a b" (mkVec "turn:c:0" "c" "a" None 1%float)
                (or_introl eq_refl)).
  apply (f_equal (fun x => (x <? 0x1.8p-5)%float)) in H.
  vm_compute in H. discriminate H.
Qed.

Lemma heuristic_score_closed (query text : string) :
  heuristic_score query text = code_heuristic_score query text.
Proof.
  unfold heuristic_score, code_heuristic_score.
  destruct (PyStr.contains (PyStr.lower query) (PyStr.lower text));
    reflexivity.
Qed.

(** C2, amended: a score computed heuristically is 1.0 when the lowercase
    query is a substring of the lowercase text, and otherwise
    (distinct query words that occur in the text)
    / max(1, number of query words, repetitions counted) x 0.1. *)
Theorem heuristic_entry_score (query_emb : option (list float))
    (query : string) (v : VectorEntry) :
  heuristic_case query_emb v ->
  entry_score query_emb query v = code_heuristic_score query (vec_text v).
Proof.
  intros H. unfold entry_score.
  replace (vec_truthy query_emb && vec_truthy (vec_emb v)) with false.
  - apply heuristic_score_closed.
  - destruct H as [-> | ->]; [reflexivity | now rewrite andb_false_r].
Qed.

Lemma heuristic_entry_score_witness :
  heuristic_case None (mkVec "turn:c:0" "c" "a" None 1%float)
  /\ entry_score None "a a b" (mkVec "turn:c:0" "c" "a" None 1%float)
     = code_heuristic_score "a a b" "a".
Proof.
  split; [left; reflexivity|].
  apply (heuristic_entry_score None "a a b"
           (mkVec "turn:c:0" "c" "a" None 1%float)).
  left; reflexivity.
Defined.

(** ** Embeddings of the wrong dimension *)

(** [add_conversation_turn] keeps no embedding when the embedder raises. *)
Lemma stored_embedding_raise (f : Embedder) (dim : option Z) (text : string) :
  f text = None -> stored_embedding (Some f) dim text = None.
Proof. intros H. unfold stored_embedding. now rewrite H. Qed.

(** [add_conversation_turn] keeps no embedding whose length differs from a
    configured (non-zero) dimension. *)
Lemma stored_embedding_wrong_dim (f : Embedder) (dim : Z) (text : string)
    (emb : list float) :
  f text = Some emb -> dim <> 0 -> Z.of_nat (length emb) <> dim ->
  stored_embedding (Some f) (Some dim) text = None.
Proof.
  intros H Hd Hl. unfold stored_embedding. rewrite H. simpl.
  destruct (Z.eqb_spec dim 0); [contradiction|].
  destruct (Z.eqb_spec (Z.of_nat (length emb)) dim); [contradiction|].
  reflexivity.
Qed.

(** C4: the query path misses the check of the add path.  In a store of
    dimension 2 whose record "doc one" carries a 2-vector, a query whose
    embedding has length 3 keeps that embedding: the cosine of vectors of
    unequal length is 0 and the record is dropped.  Were the query embedding
    absent (here: the embedder raises), the heuristic would score the record
    1.0 and return it. *)
Theorem query_keeps_wrong_dimension_embedding :
  let st := Examples.dim2_store Examples.uneven_embedder in
  map vec_emb (vectors st) = [Some [1; 0]%float]
  /\ embed_query st "doc" = Some [1; 0; 0]%float
  /\ query_memory st "doc" None 5 = []
  /\ map hit_score
       (query_memory (Examples.dim2_store Examples.failing_embedder)
                     "doc" None 5)
     = [1%float].
Proof. vm_compute. repeat split; reflexivity. Qed.

(** ** The record store: [get_conversation] *)

(** A turn is appended at the end of its owner's history; the other
    histories are untouched. *)
Lemma history_add (st : MemoryStore) (convo_id role text owner : string)
    (timestamp : option float) (now : float) :
  history (add_conversation_turn st convo_id role text timestamp now) owner
  = if decide (convo_id = owner)
    then history st owner ++ [mkTurn role text (default now timestamp)]
    else history st owner.
Proof.
  unfold history, add_conversation_turn; simpl.
  destruct (decide (convo_id = owner)) as [->|Hne].
  - now rewrite lookup_insert_eq.
  - now rewrite lookup_insert_ne.
Qed.

(** C9, as the specification states it, fails at the limit 0: the code
    returns the whole history, not the most recent 0 turns. *)
Lemma zero_limit_returns_history :
  ~ (forall (st : MemoryStore) (owner : string) (n : Z),
        0 <= n ->
        get_conversation st owner (Some n)
        = most_recent (Z.to_nat n) (history st owner)).
Proof.
  intros H. specialize (H Examples.chat "s1" 0 (Z.le_refl 0)).
  vm_compute in H. discriminate H.
Qed.

(** C9, amended: for a positive limit [n], [get_conversation] returns the
    most recent [n] stored turns of the owner, oldest first (all of them when
    fewer are stored); without a limit, or with the limit 0, it returns the
    whole history; for an owner without records it returns the empty list. *)
Theorem get_conversation_recent (st : MemoryStore) (owner : string) (n : Z) :
  0 < n ->
  get_conversation st owner (Some n)
  = most_recent (Z.to_nat n) (history st owner)
  /\ (exists older,
         history st owner = older ++ get_conversation st owner (Some n)
         /\ length (get_conversation st owner (Some n))
            = Nat.min (Z.to_nat n) (length (history st owner)))
  /\ get_conversation st owner None = history st owner
  /\ get_conversation st owner (Some 0) = history st owner
  /\ (conversations st !! owner = None ->
      forall limit, get_conversation st owner limit = []).
Proof.
  intros Hn.
  assert (E : get_conversation st owner (Some n)
              = most_recent (Z.to_nat n) (history st owner)).
  { unfold get_conversation, most_recent, history, PyNum.slice_from. simpl.
    destruct (Z.eqb_spec n 0); [lia|]. simpl.
    destruct (Z.ltb_spec (- n) 0); [|lia].
    f_equal. lia. }
  split; [exact E|]. split; [|split; [reflexivity|split; [reflexivity|]]].
  - rewrite E. unfold most_recent.
    exists (firstn (length (history st owner) - Z.to_nat n) (history st owner)).
    split; [now rewrite firstn_skipn|].
    rewrite length_skipn. lia.
  - intros Hnone limit. unfold get_conversation. rewrite Hnone. simpl.
    destruct (int_truthy limit); [|reflexivity].
    unfold PyNum.slice_from. destruct (_ <? 0); apply skipn_nil.
Qed.

Lemma get_conversation_recent_witness :
  0 < 1
  /\ get_conversation Examples.chat "s1" (Some 1)
     = most_recent 1 (history Examples.chat "s1").
Proof.
  split; [lia|].
  apply (get_conversation_recent Examples.chat "s1" 1). lia.
Defined.

(** ** The planner: the sentence split *)

Lemma sentence_end_not_space (c : ascii) :
  PyStr.is_space c = true -> Re.is_sentence_end c = false.
Proof.
  intros Hs. unfold Re.is_sentence_end.
  destruct (Ascii.eqb_spec c ".") as [->|_]; [discriminate Hs|].
  destruct (Ascii.eqb_spec c "?") as [->|_]; [discriminate Hs|].
  destruct (Ascii.eqb_spec c "!") as [->|_]; [discriminate Hs|].
  reflexivity.
Qed.

Lemma has_boundary_snoc (l : list ascii) (c : ascii) :
  has_boundary (l ++ [c])
  = has_boundary l
    || (Re.is_sentence_end (List.last l "a"%char) && PyStr.is_space c).
Proof.
  induction l as [|a [|b l] IH].
  - reflexivity.
  - simpl. now rewrite orb_false_r.
  - change (has_boundary ((a :: b :: l) ++ [c]))
      with ((Re.is_sentence_end a && PyStr.is_space b)
            || has_boundary ((b :: l) ++ [c])).
    rewrite IH.
    change (List.last (a :: b :: l) "a"%char) with (List.last (b :: l) "a"%char).
    change (has_boundary (a :: b :: l))
      with ((Re.is_sentence_end a && PyStr.is_space b)
            || has_boundary (b :: l)).
    now rewrite orb_assoc.
Qed.

Lemma last_rev_hd (cur : list ascii) (d : ascii) :
  List.last (rev cur) d = hd d cur.
Proof.
  destruct cur as [|c cur]; [reflexivity|]. simpl. apply last_last.
Qed.

Lemma has_boundary_push (c : ascii) (cur : list ascii) :
  has_boundary (rev cur) = false ->
  Re.is_sentence_end (hd "a"%char cur) && PyStr.is_space c = false ->
  has_boundary (rev (c :: cur)) = false.
Proof.
  intros H1 H2. simpl. rewrite has_boundary_snoc, last_rev_hd, H1, H2.
  reflexivity.
Qed.

Lemma chars_of_rev (cur : list ascii) :
  list_ascii_of_string (PyStr.of_rev cur) = rev cur.
Proof. apply list_ascii_of_string_of_list_ascii. Qed.

(** The scanner cuts as the pattern does.  Outside a separator ([cur] is
    the piece read so far), and inside one (the rest of the separator is
    [sp]). *)
Lemma split_sentences_from_regex (s : string) :
  (forall cur,
      has_boundary (rev cur) = false ->
      regex_split
        (rev cur ++ list_ascii_of_string s)
        (map list_ascii_of_string
           (Re.split_sentences_from
              false (Re.is_sentence_end (hd "a"%char cur)) cur s)))
  /\ (exists sp rest,
         list_ascii_of_string s = sp ++ rest
         /\ forallb PyStr.is_space sp = true
         /\ starts_with_space rest = false
         /\ regex_split rest
              (map list_ascii_of_string
                 (Re.split_sentences_from true false [] s))).
Proof.
  induction s as [|c s [IHn IHk]].
  - split.
    + intros cur H. simpl. rewrite app_nil_r, chars_of_rev.
      now apply rs_last.
    + exists [], []. repeat split. now apply rs_last.
  - split.
    + intros cur H. cbn [Re.split_sentences_from list_ascii_of_string].
      destruct (PyStr.is_space c) eqn:Hc.
      * destruct (Re.is_sentence_end (hd "a"%char cur)) eqn:He.
        -- destruct IHk as (sp & rest & Es & Hsp & Hrest & Hsplit).
           cbn [map]. rewrite chars_of_rev, Es.
           change (rev cur ++ c :: sp ++ rest)
             with (rev cur ++ (c :: sp) ++ rest).
           apply rs_cons;
             [exact H | now rewrite last_rev_hd | discriminate
             | simpl; now rewrite Hc | exact Hrest | exact Hsplit].
        -- specialize (IHn (c :: cur)).
           cbn [hd] in IHn. rewrite (sentence_end_not_space c Hc) in IHn.
           cbn [rev] in IHn. rewrite <- app_assoc in IHn. apply IHn.
           rewrite <- (has_boundary_push c cur H); [reflexivity|].
           now rewrite He.
      * specialize (IHn (c :: cur)).
        cbn [hd rev] in IHn. rewrite <- app_assoc in IHn. apply IHn.
        rewrite <- (has_boundary_push c cur H); [reflexivity|].
        rewrite Hc. apply andb_false_r.
    + cbn [Re.split_sentences_from list_ascii_of_string].
      destruct (PyStr.is_space c) eqn:Hc.
      * destruct IHk as (sp & rest & Es & Hsp & Hrest & Hsplit).
        exists (c :: sp), rest. rewrite Es. repeat split; auto.
        simpl. now rewrite Hc.
      * exists [], (c :: list_ascii_of_string s). repeat split.
        -- simpl. exact Hc.
        -- apply (IHn [c]). reflexivity.
Qed.

(** [Re.split_sentences] cuts a string as [re.split] does. *)
Lemma split_sentences_regex (s : string) :
  regex_split (list_ascii_of_string s)
              (map list_ascii_of_string (Re.split_sentences s)).
Proof.
  destruct (split_sentences_from_regex s) as [H _].
  apply (H [] eq_refl).
Qed.

(** The cut is unique: [regex_split] relates a string to one list of
    pieces only. *)

Lemma has_boundary_app_r (l1 l2 : list ascii) :
  has_boundary l2 = true -> has_boundary (l1 ++ l2) = true.
Proof.
  intros H. induction l1 as [|a l1 IH]; [exact H|].
  simpl. destruct (l1 ++ l2) eqn:E; [discriminate IH|].
  rewrite IH. apply orb_true_r.
Qed.

Lemma has_boundary_at (p : list ascii) (c : ascii) (r : list ascii) :
  Re.is_sentence_end (List.last p "a"%char) = true ->
  PyStr.is_space c = true ->
  has_boundary (p ++ c :: r) = true.
Proof.
  intros He Hc. destruct (exists_last (l := p)) as (p' & a & ->).
  - intros ->. discriminate He.
  - rewrite last_last in He. rewrite <- app_assoc.
    apply has_boundary_app_r. simpl. now rewrite He, Hc.
Qed.

Lemma space_run_unique (sep1 sep2 rest1 rest2 : list ascii) :
  forallb PyStr.is_space sep1 = true ->
  forallb PyStr.is_space sep2 = true ->
  starts_with_space rest1 = false ->
  starts_with_space rest2 = false ->
  sep1 ++ rest1 = sep2 ++ rest2 ->
  sep1 = sep2 /\ rest1 = rest2.
Proof.
  revert sep2. induction sep1 as [|c sep1 IH]; intros sep2 H1 H2 R1 R2 E.
  - destruct sep2 as [|d sep2]; [auto|].
    simpl in E. subst rest1. simpl in R1, H2.
    apply andb_prop in H2. destruct H2 as [H2 _]. congruence.
  - destruct sep2 as [|d sep2].
    + simpl in E. subst rest2. simpl in R2, H1.
      apply andb_prop in H1. destruct H1 as [H1 _]. congruence.
    + simpl in E, H1, H2. injection E as -> E.
      apply andb_prop in H1, H2.
      destruct (IH sep2 (proj2 H1) (proj2 H2) R1 R2 E) as [-> ->]. auto.
Qed.

Lemma regex_split_unique (s : list ascii) (ps qs : list (list ascii)) :
  regex_split s ps -> regex_split s qs -> ps = qs.
Proof.
  intros Hp. revert qs.
  induction Hp as [p Hb | p sep rest pieces Hb He Hne Hsp Hrest Hp IH];
    intros qs Hq.
  - inversion Hq as [q Hb' | q sep' rest' pieces' Hb' He' Hne' Hsp' _ _ E];
      subst; [reflexivity|].
    exfalso. destruct sep' as [|c sep']; [contradiction|].
    simpl in Hsp'. apply andb_prop in Hsp'.
    pose proof (has_boundary_at q c (sep' ++ rest') He' (proj1 Hsp')) as X.
    cbn [app] in Hb. congruence.
  - inversion Hq as [q Hb' | q sep' rest' pieces' Hb' He' Hne' Hsp' Hrest' Hq' E];
      subst.
    + exfalso. destruct sep as [|c sep]; [contradiction|].
      simpl in Hsp. apply andb_prop in Hsp.
      pose proof (has_boundary_at p c (sep ++ rest) He (proj1 Hsp)) as X.
      cbn [app] in Hb'. congruence.
    + assert (Epq : p = q).
      { destruct sep as [|c sep]; [contradiction|].
        destruct sep' as [|c' sep']; [contradiction|].
        simpl in Hsp, Hsp'. apply andb_prop in Hsp, Hsp'.
        symmetry in E. apply app_eq_app in E.
        destruct E as (d & [[-> E] | [-> E]]).
        - destruct d as [|x d]; [now rewrite app_nil_r|]. exfalso.
          simpl in E. injection E as Ex E. subst x.
          pose proof (has_boundary_at q c' d He' (proj1 Hsp')) as X.
          congruence.
        - destruct d as [|x d]; [now rewrite app_nil_r|]. exfalso.
          simpl in E. injection E as Ex E. subst x.
          pose proof (has_boundary_at p c d He (proj1 Hsp)) as X.
          congruence. }
      subst q. apply app_inv_head in E.
      destruct (space_run_unique _ _ _ _ Hsp' Hsp Hrest' Hrest E)
        as [-> ->].
      f_equal. now apply IH.
Qed.

(** ** The planner: decomposition *)

Lemma decompose_step_steps (steps : list string) (s : string) :
  decompose_step steps s = steps ++ sentence_steps s.
Proof.
  unfold decompose_step, sentence_steps.
  destruct (PyStr.truthy (PyStr.strip s)); simpl;
    [|now rewrite app_nil_r].
  destruct (Re.search_math (PyStr.strip s)); [reflexivity|].
  destruct (PyStr.has_char "," (PyStr.strip s)); reflexivity.
Qed.

Lemma decompose_loop (sentences : list string) (steps : list string) :
  fold_left decompose_step sentences steps
  = steps ++ flat_map sentence_steps sentences.
Proof.
  revert steps. induction sentences as [|s l IH]; intros steps; simpl.
  - now rewrite app_nil_r.
  - rewrite IH, decompose_step_steps. now rewrite <- app_assoc.
Qed.

(** *** The code's character tests are the specification's lists *)

Lemma is_space_whitespace (c : ascii) :
  PyStr.is_space c = Spec.whitespace c.
Proof. destruct c as [[] [] [] [] [] [] [] []]; reflexivity. Qed.

Lemma is_sentence_end_listed (c : ascii) :
  Re.is_sentence_end c = Spec.sentence_end c.
Proof. destruct c as [[] [] [] [] [] [] [] []]; reflexivity. Qed.

Lemma is_math_char_listed (c : ascii) :
  Re.is_math_char c = Spec.equation_char c.
Proof. destruct c as [[] [] [] [] [] [] [] []]; reflexivity. Qed.

Lemma search_math_listed (s : string) :
  Re.search_math s = true <-> Spec.has_equation_char (chars s).
Proof.
  unfold Spec.has_equation_char. induction s as [|c s IH]; simpl.
  - split; [discriminate | intros (c & [] & _)].
  - rewrite orb_true_iff, IH, is_math_char_listed. split.
    + intros [H | (d & Hd & He)]; [exists c; auto | exists d; auto].
    + intros (d & [<- | Hd] & He); [now left | right; exists d; auto].
Qed.

Lemma has_char_comma (s : string) :
  PyStr.has_char "," s = true <-> In Spec.comma (chars s).
Proof.
  induction s as [|c s IH]; [split; [discriminate | intros []]|].
  cbn [PyStr.has_char]. change (chars (String c s)) with (c :: chars s).
  cbn [In]. rewrite orb_true_iff, IH, Ascii.eqb_eq. unfold Spec.comma.
  split; intros [H|H]; auto.
Qed.

Lemma truthy_chars (s : string) :
  PyStr.truthy s = true <-> chars s <> [].
Proof. destruct s; simpl; split; congruence. Qed.

Lemma chars_inj (s t : string) : chars s = chars t -> s = t.
Proof.
  intros E. rewrite <- (string_of_list_ascii_of_string s),
                    <- (string_of_list_ascii_of_string t).
  unfold chars in E. now rewrite E.
Qed.

Lemma steps_chars_inj (l m : list string) : map chars l = map chars m -> l = m.
Proof.
  revert m. induction l as [|s l IH]; intros [|t m] E; try discriminate E;
    [reflexivity|].
  injection E as Es E. f_equal; [now apply chars_inj | now apply IH].
Qed.

Lemma forallb_space_all (l : list ascii) :
  forallb PyStr.is_space l = true <-> Spec.all_whitespace l.
Proof.
  unfold Spec.all_whitespace. rewrite forallb_forall, List.Forall_forall.
  split; intros H c Hc; [rewrite <- is_space_whitespace | rewrite is_space_whitespace];
    now apply H.
Qed.

Lemma starts_with_space_leading (l : list ascii) :
  starts_with_space l = false <-> Spec.no_leading_space l.
Proof.
  unfold Spec.no_leading_space. destruct l as [|c l]; simpl.
  - split; [intros _ c r E; discriminate E | reflexivity].
  - rewrite is_space_whitespace. split.
    + intros H d r E. injection E as <- _. exact H.
    + intros H. apply (H c l eq_refl).
Qed.

(** *** The sentences *)

Lemma has_boundary_no_break (p : list ascii) :
  has_boundary p = false <-> Spec.no_break p.
Proof.
  unfold Spec.no_break. split.
  - intros H l a b r -> Ha.
    destruct (Spec.whitespace b) eqn:Hb; [|reflexivity].
    rewrite has_boundary_app_r in H; [discriminate H|].
    simpl. now rewrite is_sentence_end_listed, is_space_whitespace, Ha, Hb.
  - induction p as [|a [|b p] IH]; intros H; [reflexivity | reflexivity|].
    change (has_boundary (a :: b :: p))
      with ((Re.is_sentence_end a && PyStr.is_space b)
            || has_boundary (b :: p)).
    rewrite IH.
    + rewrite orb_false_r, is_sentence_end_listed, is_space_whitespace.
      destruct (Spec.sentence_end a) eqn:Ha; [|reflexivity].
      apply (H [] a b p eq_refl Ha).
    + intros l x y r E. apply (H (a :: l) x y r). now rewrite E.
Qed.

Lemma last_ends_sentence (p : list ascii) :
  Re.is_sentence_end (List.last p "a"%char) = true <-> Spec.ends_sentence p.
Proof.
  unfold Spec.ends_sentence. split.
  - intros H. destruct (exists_last (l := p)) as (q & c & ->).
    + intros ->. discriminate H.
    + rewrite last_last, is_sentence_end_listed in H. now exists q, c.
  - intros (q & c & -> & H).
    now rewrite last_last, is_sentence_end_listed.
Qed.

(** The pattern's cut and the specification's sentences are the same. *)
Lemma regex_split_sentences (s : list ascii) (pieces : list (list ascii)) :
  regex_split s pieces <-> Spec.sentences s pieces.
Proof.
  split.
  - induction 1 as [p Hb | p sep rest pieces Hb He Hne Hsp Hrest _ IH].
    + apply Spec.sentences_last. now apply has_boundary_no_break.
    + apply Spec.sentences_cons; auto.
      * now apply has_boundary_no_break.
      * now apply last_ends_sentence.
      * now apply forallb_space_all.
      * now apply starts_with_space_leading.
  - induction 1 as [p Hb | p gap rest pieces Hb He Hne Hsp Hrest _ IH].
    + apply rs_last. now apply has_boundary_no_break.
    + apply rs_cons; auto.
      * now apply has_boundary_no_break.
      * now apply last_ends_sentence.
      * now apply forallb_space_all.
      * now apply starts_with_space_leading.
Qed.

(** *** Trimming *)

Lemma lstrip_chars (s : string) :
  chars (PyStr.lstrip s) = PyStr.drop_spaces (chars s).
Proof.
  induction s as [|c s IH]; [reflexivity|]. simpl.
  destruct (PyStr.is_space c); [exact IH | reflexivity].
Qed.

Lemma strip_chars (s : string) :
  chars (PyStr.strip s)
  = rev (PyStr.drop_spaces (rev (PyStr.drop_spaces (chars s)))).
Proof.
  unfold PyStr.strip, PyStr.rstrip, chars. rewrite chars_of_rev.
  fold (chars (PyStr.lstrip s)). now rewrite lstrip_chars.
Qed.

Lemma drop_spaces_split (l : list ascii) :
  exists before,
    l = before ++ PyStr.drop_spaces l
    /\ Spec.all_whitespace before
    /\ Spec.no_leading_space (PyStr.drop_spaces l).
Proof.
  induction l as [|c l (before & E & Hb & Hl)].
  - exists []. repeat split; [constructor | intros c r E; discriminate E].
  - simpl. destruct (PyStr.is_space c) eqn:Hc.
    + exists (c :: before). repeat split; [simpl; now f_equal | | exact Hl].
      constructor; [now rewrite <- is_space_whitespace | exact Hb].
    + exists []. repeat split; [constructor|].
      intros d r Ed. injection Ed as <- _.
      now rewrite <- is_space_whitespace.
Qed.

Lemma drop_spaces_all (before l : list ascii) :
  Spec.all_whitespace before ->
  PyStr.drop_spaces (before ++ l) = PyStr.drop_spaces l.
Proof.
  induction 1 as [|c before Hc _ IH]; [reflexivity|]. simpl.
  now rewrite is_space_whitespace, Hc.
Qed.

Lemma drop_spaces_none (l : list ascii) :
  Spec.no_leading_space l -> PyStr.drop_spaces l = l.
Proof.
  destruct l as [|c l]; [reflexivity|]. intros H. simpl.
  now rewrite is_space_whitespace, (H c l eq_refl).
Qed.

Lemma no_trailing_rev (l : list ascii) :
  Spec.no_trailing_space l <-> Spec.no_leading_space (rev l).
Proof.
  unfold Spec.no_trailing_space, Spec.no_leading_space. split.
  - intros H c r E. apply (H (rev r) c).
    rewrite <- (rev_involutive l), E. reflexivity.
  - intros H r c ->. apply (H c (rev r)). now rewrite rev_app_distr.
Qed.

Lemma all_whitespace_rev (l : list ascii) :
  Spec.all_whitespace l -> Spec.all_whitespace (rev l).
Proof.
  unfold Spec.all_whitespace. rewrite !List.Forall_forall.
  intros H c Hc. apply H. now apply in_rev.
Qed.

(** What the code's [strip] leaves is the string trimmed ... *)
Lemma trimmed_list (l : list ascii) :
  Spec.trimmed l (rev (PyStr.drop_spaces (rev (PyStr.drop_spaces l)))).
Proof.
  destruct (drop_spaces_split l) as (before & E & Hb & Hl).
  set (m := PyStr.drop_spaces l) in *.
  destruct (drop_spaces_split (rev m)) as (after & E' & Ha & Hl').
  set (t := PyStr.drop_spaces (rev m)) in *.
  assert (Em : m = rev t ++ rev after).
  { rewrite <- rev_app_distr, <- E'. now rewrite rev_involutive. }
  exists before, (rev after). repeat split.
  - now rewrite <- Em.
  - exact Hb.
  - now apply all_whitespace_rev.
  - intros c r Et. destruct (rev t) as [|c' r'] eqn:Er; [discriminate Et|].
    injection Et as -> ->. apply (Hl c (r ++ rev after)). now rewrite Em.
  - apply no_trailing_rev. now rewrite rev_involutive.
Qed.

(** ... and nothing else is. *)
Lemma trimmed_unique (l t : list ascii) :
  Spec.trimmed l t ->
  t = rev (PyStr.drop_spaces (rev (PyStr.drop_spaces l))).
Proof.
  intros (before & after & -> & Hb & Ha & Hl & Hr).
  rewrite (drop_spaces_all _ _ Hb).
  destruct t as [|c t'].
  - simpl. rewrite <- (app_nil_r after) at 1.
    rewrite (drop_spaces_all _ _ Ha). reflexivity.
  - rewrite (drop_spaces_none ((c :: t') ++ after)).
    + rewrite rev_app_distr.
      rewrite (drop_spaces_all _ _ (all_whitespace_rev _ Ha)).
      rewrite drop_spaces_none; [now rewrite rev_involutive|].
      now apply no_trailing_rev.
    + intros d r E. injection E as <- _. apply (Hl c t' eq_refl).
Qed.

Lemma strip_trimmed (s : string) :
  Spec.trimmed (chars s) (chars (PyStr.strip s)).
Proof. rewrite strip_chars. apply trimmed_list. Qed.

Lemma trimmed_strip (s : string) (t : list ascii) :
  Spec.trimmed (chars s) t -> t = chars (PyStr.strip s).
Proof. rewrite strip_chars. apply trimmed_unique. Qed.

Lemma trimmed_functional (l t1 t2 : list ascii) :
  Spec.trimmed l t1 -> Spec.trimmed l t2 -> t1 = t2.
Proof.
  intros H1 H2. now rewrite (trimmed_unique _ _ H1), (trimmed_unique _ _ H2).
Qed.

(** *** The comma pieces *)

Lemma joined_cons (p : list ascii) (rest : list (list ascii)) :
  rest <> [] -> Spec.joined (p :: rest) = p ++ Spec.comma :: Spec.joined rest.
Proof. destruct rest; [congruence | reflexivity]. Qed.

Lemma split_on_comma_from (s : string) (cur : list ascii) :
  ~ In Spec.comma cur ->
  Spec.comma_pieces (rev cur ++ chars s)
                    (map chars (PyStr.split_on_from "," cur s)).
Proof.
  unfold chars. revert cur. induction s as [|c s IH]; intros cur Hcur.
  - cbn [PyStr.split_on_from map list_ascii_of_string].
    rewrite chars_of_rev, app_nil_r.
    repeat split; [discriminate|].
    constructor; [|constructor]. now rewrite <- in_rev.
  - cbn [PyStr.split_on_from list_ascii_of_string].
    destruct (Ascii.eqb_spec c ",") as [->|Hc].
    + destruct (IH [] (fun H => H)) as (Hne & Hall & E).
      cbn [map]. rewrite chars_of_rev.
      split; [discriminate|]. split.
      * constructor; [now rewrite <- in_rev | exact Hall].
      * rewrite (joined_cons _ _ Hne). cbn [rev app] in E. now rewrite <- E.
    + specialize (IH (c :: cur)). cbn [rev] in IH.
      rewrite <- app_assoc in IH. apply IH.
      intros [E|H]; [now apply Hc | now apply Hcur].
Qed.

Lemma split_on_comma (s : string) :
  Spec.comma_pieces (chars s) (map chars (PyStr.split_on "," s)).
Proof. apply (split_on_comma_from s []). intros []. Qed.

Lemma first_comma (p1 p2 r1 r2 : list ascii) :
  ~ In Spec.comma p1 -> ~ In Spec.comma p2 ->
  p1 ++ Spec.comma :: r1 = p2 ++ Spec.comma :: r2 ->
  p1 = p2 /\ r1 = r2.
Proof.
  revert p2. induction p1 as [|a p1 IH]; intros [|b p2] H1 H2 E; simpl in E.
  - injection E as E. auto.
  - injection E as E _. destruct H2. left. congruence.
  - injection E as E _. destruct H1. left. congruence.
  - injection E as -> E.
    destruct (IH p2) as [-> ->]; auto; intros H; [apply H1 | apply H2];
      now right.
Qed.

Lemma joined_single (p : list ascii) (qs : list (list ascii)) :
  ~ In Spec.comma p -> qs <> [] -> p = Spec.joined qs -> qs = [p].
Proof.
  intros Hp Hq E. destruct qs as [|q [|q' qs]]; [congruence | |].
  - simpl in E. now subst q.
  - exfalso. rewrite joined_cons in E by discriminate.
    apply Hp. rewrite E. apply in_or_app. right. now left.
Qed.

Lemma comma_pieces_unique (s : list ascii) (ps qs : list (list ascii)) :
  Spec.comma_pieces s ps -> Spec.comma_pieces s qs -> ps = qs.
Proof.
  intros (Hp & Ap & ->) (Hq & Aq & E).
  revert qs Hq Aq E. induction ps as [|p ps IH]; intros qs Hq Aq E;
    [congruence|].
  inversion Ap as [|? ? Hcp Ap']; subst.
  destruct ps as [|p' ps].
  - symmetry. now apply joined_single.
  - destruct qs as [|q qs]; [congruence|].
    inversion Aq as [|? ? Hcq Aq']; subst.
    destruct qs as [|q' qs].
    + pose proof (joined_single q (p :: p' :: ps) Hcq ltac:(discriminate)
                    (eq_sym E)) as X.
      discriminate X.
    + rewrite !joined_cons in E by discriminate.
      destruct (first_comma _ _ _ _ Hcp Hcq E) as [-> E'].
      f_equal. apply IH; [discriminate | exact Ap' | discriminate
                         | exact Aq' | exact E'].
Qed.

(** *** The steps of a sentence *)

Lemma nonempty_truthy (l : list string) :
  map chars (List.filter PyStr.truthy l)
  = List.filter Spec.nonempty (map chars l).
Proof.
  induction l as [|s l IH]; [reflexivity|]. simpl.
  destruct s; simpl; [exact IH | now rewrite IH].
Qed.

Lemma Forall2_maps {A B C} (R : B -> C -> Prop) (f : A -> B) (g : A -> C)
    (l : list A) :
  (forall a, R (f a) (g a)) -> Forall2 R (map f l) (map g l).
Proof. intros H. induction l; constructor; auto. Qed.

Lemma Forall2_functional {A B} (R : A -> B -> Prop) (l : list A)
    (m1 m2 : list B) :
  (forall a b1 b2, R a b1 -> R a b2 -> b1 = b2) ->
  Forall2 R l m1 -> Forall2 R l m2 -> m1 = m2.
Proof.
  intros Hf H1. revert m2.
  induction H1 as [|a b l m1 Hab _ IH]; intros m2 H2; inversion H2; subst;
    [reflexivity|].
  f_equal; [eapply Hf; eassumption | now apply IH].
Qed.

(** The steps of a sentence in the code are those of the specification *)
Lemma sentence_steps_spec (s : string) :
  Spec.steps_of_sentence (chars s) (map chars (sentence_steps s)).
Proof.
  unfold sentence_steps. pose proof (strip_trimmed s) as Ht.
  set (t := PyStr.strip s) in *.
  destruct (PyStr.truthy t) eqn:Hne.
  - apply truthy_chars in Hne.
    destruct (Re.search_math t) eqn:Hm.
    + apply search_math_listed in Hm. now apply Spec.steps_equation.
    + assert (Hm' : ~ Spec.has_equation_char (chars t)).
      { intros H. apply search_math_listed in H. congruence. }
      destruct (PyStr.has_char "," t) eqn:Hc.
      * apply has_char_comma in Hc. rewrite nonempty_truthy.
        apply (Spec.steps_commas _ (chars t)
                 (map chars (PyStr.split_on "," t))); auto.
        -- apply split_on_comma.
        -- rewrite (map_map PyStr.strip chars).
           apply Forall2_maps. apply strip_trimmed.
      * apply Spec.steps_whole; auto.
        intros H. apply has_char_comma in H. congruence.
  - destruct t; [|discriminate Hne]. now apply Spec.steps_blank.
Qed.

Lemma steps_of_sentence_unique (s : list ascii)
    (steps1 steps2 : list (list ascii)) :
  Spec.steps_of_sentence s steps1 -> Spec.steps_of_sentence s steps2 ->
  steps1 = steps2.
Proof.
  intros H1 H2.
  destruct H1 as [s H1 | s t1 H1 N1 M1 | s t1 ps1 ts1 H1 N1 M1 C1 P1 F1
                 | s t1 H1 N1 M1 C1];
    destruct H2 as [s H2 | s t2 H2 N2 M2 | s t2 ps2 ts2 H2 N2 M2 C2 P2 F2
                   | s t2 H2 N2 M2 C2];
    pose proof (trimmed_functional _ _ _ H1 H2) as E;
    try subst t2; try subst t1;
    try reflexivity; try congruence; try contradiction.
  rewrite (comma_pieces_unique _ _ _ P2 P1) in F2.
  f_equal. apply (Forall2_functional _ _ _ _ trimmed_functional F1 F2).
Qed.

(** *** The decomposition *)

Lemma flat_map_chars (l : list string) :
  map chars (flat_map sentence_steps l)
  = concat (map (fun s => map chars (sentence_steps s)) l).
Proof.
  induction l as [|s l IH]; [reflexivity|]. simpl.
  now rewrite map_app, IH.
Qed.

Lemma decompose_problem_decomposition (problem rag_ctx : string) :
  _decompose_problem problem rag_ctx
  = rag_hint rag_ctx ++ decomposition problem.
Proof.
  unfold _decompose_problem, rag_hint, decomposition.
  rewrite decompose_loop. destruct (PyStr.truthy rag_ctx); reflexivity.
Qed.

Lemma decomposition_decomposes (problem : string) :
  Spec.decomposes (chars problem) (map chars (decomposition problem)).
Proof.
  exists (map chars (Re.split_sentences problem)),
         (map (fun s => map chars (sentence_steps s))
              (Re.split_sentences problem)).
  split; [apply regex_split_sentences, split_sentences_regex|].
  split; [|apply flat_map_chars].
  apply Forall2_maps. apply sentence_steps_spec.
Qed.

Lemma decomposes_unique (problem : list ascii)
    (steps1 steps2 : list (list ascii)) :
  Spec.decomposes problem steps1 -> Spec.decomposes problem steps2 ->
  steps1 = steps2.
Proof.
  intros (ss1 & st1 & S1 & F1 & ->) (ss2 & st2 & S2 & F2 & ->).
  apply regex_split_sentences in S1, S2.
  rewrite (regex_split_unique _ _ _ S2 S1) in F2.
  f_equal. apply (Forall2_functional _ _ _ _ steps_of_sentence_unique F1 F2).
Qed.

(** C6: [_decompose_problem], without context, yields the decomposition of
    the specification, and nothing else is one.  The problem is split into
    sentences at each run of whitespace that directly follows one of
    [. ? !]; a sentence whose trimmed text is empty yields nothing; one with
    a character of [0-9 = + - * / ^ ( )] yields its trimmed text as one
    step, commas or not; another one with a comma yields its comma pieces,
    trimmed, those left empty dropped; any other yields its trimmed text;
    the steps come in sentence order.  With context, the synthetic step
    comes first and the same steps follow.
    "Find area, then find perimeter" yields the two steps "Find area" and
    "then find perimeter"; "Solve x+2=5 for x." yields one step, the
    sentence; an equation with a comma stays whole, and whitespace after the
    last sentence yields no step. *)
Theorem decompose_problem_steps (problem rag_ctx : string) :
  Spec.decomposes (chars problem) (map chars (_decompose_problem problem ""))
  /\ (forall steps : list string,
        Spec.decomposes (chars problem) (map chars steps) ->
        steps = _decompose_problem problem "")
  /\ _decompose_problem problem rag_ctx
     = rag_hint rag_ctx ++ _decompose_problem problem ""
  /\ _decompose_problem "Find area, then find perimeter" ""
     = ["Find area"; "then find perimeter"]
  /\ _decompose_problem "Solve x+2=5 for x." "" = ["Solve x+2=5 for x."]
  /\ Spec.trimmed (chars "Solve x+2=5 for x.") (chars "Solve x+2=5 for x.")
  /\ _decompose_problem
       "If x=1, then y=2.  Draw the graph, label the axes , and stop!   " ""
     = ["If x=1, then y=2."; "Draw the graph"; "label the axes"; "and stop!"].
Proof.
  assert (E : _decompose_problem problem "" = decomposition problem)
    by apply (decompose_problem_decomposition problem "").
  split; [rewrite E; apply decomposition_decomposes|].
  split.
  { intros steps H. rewrite E.
    apply steps_chars_inj.
    apply (decomposes_unique _ _ _ H (decomposition_decomposes problem)). }
  split; [now rewrite E, decompose_problem_decomposition|].
  split; [reflexivity|]. split; [reflexivity|].
  split; [apply (strip_trimmed "Solve x+2=5 for x.")|].
  reflexivity.
Qed.

(** ** The planner: verification *)

Lemma plan_loop_unverified (v : Verifier) (steps : list string)
    (results : list PlanStep) (calls : list string) :
  fold_left (plan_step v false) steps (results, calls)
  = (results ++ map (fun s => mkStep s None) steps, calls).
Proof.
  revert results. induction steps as [|s l IH]; intros results; simpl.
  - now rewrite app_nil_r.
  - rewrite IH. now rewrite <- app_assoc.
Qed.

Lemma plan_loop_verified (v : Verifier) (steps : list string)
    (results : list PlanStep) (calls : list string) :
  fold_left (plan_step v true) steps (results, calls)
  = (results ++ map (fun s => mkStep s (Some (verification_of v s))) steps,
     calls ++ steps).
Proof.
  revert results calls.
  induction steps as [|s l IH]; intros results calls; simpl.
  - now rewrite !app_nil_r.
  - assert (E : mkStep s (Some (verification_of v s))
                = match v s with
                  | inl r => mkStep s (Some (VResult "sympy" r))
                  | inr e => mkStep s (Some (VError "sympy" e))
                  end)
      by (unfold verification_of; destruct (v s); reflexivity).
    rewrite E. destruct (v s); rewrite IH; now rewrite <- !app_assoc.
Qed.

(** What [plan] returns, in closed form. *)
Lemma plan_unfold (v : Verifier) (p : ReActPlanner) (problem : string)
    (user_id : option string) (verify : bool) (t_start t_end : float) :
  let ctx := build_rag_context (rag p) problem user_id 3 3 in
  let steps := _decompose_problem problem (fst ctx) in
  plan v p problem user_id verify t_start t_end
  = (mkPlan problem (fst ctx)
       (map (fun s => mkStep s (if verify
                                then Some (verification_of v s)
                                else None)) steps)
       (t_end - t_start)%float,
     mkPlanner (snd ctx) (memory p),
     if verify then steps else []).
Proof.
  unfold plan. destruct (build_rag_context _ _ _ _ _) as [ctx rag1]. simpl.
  destruct verify.
  - now rewrite plan_loop_verified.
  - now rewrite plan_loop_unverified.
Qed.

(** C7: with [verify = False] the verifier is never called: the log of
    calls is empty, the whole result is the same for any two verifiers, and
    every step's verification is absent. *)
Theorem plan_unverified_ignores_verifier (v1 v2 : Verifier)
    (p : ReActPlanner) (problem : string) (user_id : option string)
    (t_start t_end : float) :
  calls_of (plan v1 p problem user_id false t_start t_end) = []
  /\ plan v1 p problem user_id false t_start t_end
     = plan v2 p problem user_id false t_start t_end
  /\ Forall (fun s => verification s = None)
            (plan_steps (plan_of (plan v1 p problem user_id false
                                       t_start t_end))).
Proof.
  rewrite !plan_unfold. unfold calls_of, plan_of. simpl.
  repeat split. apply List.Forall_forall. intros s Hs.
  apply in_map_iff in Hs. destruct Hs as (x & <- & _). reflexivity.
Qed.

(** C8: with [verify = True] the verifier is called once per step, in order,
    with the step's text; each step records [{tool, result}] when the call
    returns and [{tool, error}] when it raises; whatever the verifier does,
    the plan is returned and holds every step of the decomposition. *)
Theorem plan_verified_records_outcomes (v : Verifier) (p : ReActPlanner)
    (problem : string) (user_id : option string) (t_start t_end : float) :
  let r := plan v p problem user_id true t_start t_end in
  let steps := _decompose_problem problem (plan_rag_context (plan_of r)) in
  plan_rag_context (plan_of r)
  = fst (build_rag_context (rag p) problem user_id 3 3)
  /\ calls_of r = steps
  /\ map step (plan_steps (plan_of r)) = steps
  /\ plan_steps (plan_of r)
     = map (fun s => mkStep s (Some (verification_of v s))) steps
  /\ (forall s result, v s = inl result ->
        verification_of v s = VResult "sympy" result)
  /\ (forall s error, v s = inr error ->
        verification_of v s = VError "sympy" error).
Proof.
  intros r steps. subst r steps. rewrite !plan_unfold.
  unfold calls_of, plan_of. simpl. repeat split.
  - rewrite map_map. simpl. now rewrite map_id.
  - intros s result H. unfold verification_of. now rewrite H.
  - intros s error H. unfold verification_of. now rewrite H.
Qed.

(** ** The retrieval manager: state *)

Lemma tag_loop (src : string) (hits acc : list Hit) :
  fold_left (tag_source src) hits acc = acc ++ map (with_source src) hits.
Proof.
  revert acc. induction hits as [|r l IH]; intros acc; simpl.
  - now rewrite app_nil_r.
  - rewrite IH. unfold tag_source, with_source. now rewrite <- app_assoc.
Qed.

(** [retrieve] in closed form. *)
Lemma retrieve_unfold (mgr : RAGManager) (query : string)
    (user_id : option string) (kg ku : Z) :
  retrieve mgr query user_id kg ku
  = (dedup_by_text (sort_desc hit_score (combined_hits mgr query user_id kg ku)),
     if str_truthy user_id
     then snd (_get_user_store mgr (default "" user_id))
     else mgr).
Proof.
  unfold retrieve, combined_hits, global_hits, user_hits.
  destruct (str_truthy user_id).
  - destruct (_get_user_store mgr (default "" user_id)) as [store mgr1].
    simpl. now rewrite !tag_loop.
  - rewrite tag_loop. simpl. now rewrite app_nil_r.
Qed.

Lemma get_user_store_global (mgr : RAGManager) (uid : string) :
  global_store (snd (_get_user_store mgr uid)) = global_store mgr.
Proof.
  unfold _get_user_store. destruct (user_stores mgr !! uid); reflexivity.
Qed.

Lemma get_user_store_stores (mgr : RAGManager) (uid : string) :
  user_stores (snd (_get_user_store mgr uid))
  = match user_stores mgr !! uid with
    | Some _ => user_stores mgr
    | None => <[uid := fresh_user_store mgr]> (user_stores mgr)
    end.
Proof.
  unfold _get_user_store. destruct (user_stores mgr !! uid); reflexivity.
Qed.

(** The store [_get_user_store] hands out is the one the map holds after
    the call. *)
Lemma get_user_store_held (mgr : RAGManager) (uid : string) :
  user_stores (snd (_get_user_store mgr uid)) !! uid
  = Some (fst (_get_user_store mgr uid)).
Proof.
  unfold _get_user_store.
  destruct (user_stores mgr !! uid) eqn:E; simpl; [exact E|].
  apply lookup_insert_eq.
Qed.

(** Lazy creation is idempotent: a second call reuses the store. *)
Lemma get_user_store_again (mgr : RAGManager) (uid : string) :
  _get_user_store (snd (_get_user_store mgr uid)) uid
  = (fst (_get_user_store mgr uid), snd (_get_user_store mgr uid)).
Proof.
  pose proof (get_user_store_held mgr uid) as H.
  unfold _get_user_store at 1. now rewrite H.
Qed.

(** C10: [retrieve] leaves the global store and every existing per-user
    store as they are; the manager is unchanged, or else the user id was
    given and unseen and the one change is the insertion of a fresh, empty
    store for it; a later call with the same arguments reuses that store and
    changes nothing. *)
Theorem retrieve_frame (mgr : RAGManager) (query : string)
    (user_id : option string) (kg ku : Z) :
  let mgr' := snd (retrieve mgr query user_id kg ku) in
  global_store mgr' = global_store mgr
  /\ (forall uid st, user_stores mgr !! uid = Some st ->
                     user_stores mgr' !! uid = Some st)
  /\ (mgr' = mgr
      \/ exists uid, user_id = Some uid
           /\ user_stores mgr !! uid = None
           /\ mgr' = mkManager (global_store mgr)
                       (<[uid := fresh_user_store mgr]> (user_stores mgr)))
  /\ (forall uid, user_id = Some uid -> PyStr.truthy uid = true ->
        user_stores mgr !! uid = None ->
        user_stores mgr' = <[uid := fresh_user_store mgr]> (user_stores mgr))
  /\ (conversations (fresh_user_store mgr) = ∅
      /\ profiles (fresh_user_store mgr) = ∅
      /\ vectors (fresh_user_store mgr) = [])
  /\ retrieve mgr' query user_id kg ku
     = (fst (retrieve mgr query user_id kg ku), mgr').
Proof.
  intros mgr'. subst mgr'. rewrite !retrieve_unfold. simpl.
  destruct (str_truthy user_id) eqn:Hu.
  - destruct user_id as [uid|]; [|discriminate]. simpl in *.
    split; [apply get_user_store_global|].
    split.
    { intros u st H. rewrite get_user_store_stores.
      destruct (user_stores mgr !! uid) eqn:E; [exact H|].
      rewrite lookup_insert_ne; [exact H|]. intros ->. congruence. }
    split.
    { unfold _get_user_store, fresh_user_store.
      destruct (user_stores mgr !! uid) eqn:E; simpl; [now left|].
      right. exists uid. auto. }
    split.
    { intros u [= <-] _ Hnone. rewrite get_user_store_stores.
      now rewrite Hnone. }
    split; [repeat split|].
    f_equal; [|now rewrite get_user_store_again].
    unfold combined_hits, global_hits, user_hits. simpl.
    rewrite Hu, get_user_store_global, get_user_store_again. reflexivity.
  - split; [reflexivity|]. split; [auto|]. split; [now left|].
    split.
    { intros u -> Ht. simpl in Hu. congruence. }
    split; [repeat split|reflexivity].
Qed.

(** ** The retrieval manager: reachable states are consistent *)










(** ** The retrieval manager: merge and de-duplication *)







(** Every combined hit passed the test [score > 0] of its store. *)
Lemma combined_positive (mgr : RAGManager) (query : string)
    (user_id : option string) (kg ku : Z) :
  Forall (key_positive hit_score) (combined_hits mgr query user_id kg ku).
Proof.
  apply List.Forall_forall. intros a Ha. unfold combined_hits in Ha.
  apply in_app_or in Ha. destruct Ha as [Ha|Ha].
  - apply in_map_iff in Ha. destruct Ha as (r & <- & Hr).
    apply (query_memory_In _ _ _ _ _ Hr).
  - destruct (str_truthy user_id); [|contradiction].
    apply in_map_iff in Ha. destruct Ha as (r & <- & Hr).
    apply (query_memory_In _ _ _ _ _ Hr).
Qed.




(** * Further properties of the code *)

(** ** [query_memory]: bounds, prefixes, owners *)

Lemma remaining_length (st : MemoryStore) (query : string)
    (owner : option string) :
  (length (remaining st query owner) <= length (vectors st))%nat.
Proof.
  unfold remaining, scored_entries.
  etransitivity; [apply List.filter_length_le|].
  rewrite length_map. apply List.filter_length_le.
Qed.

Lemma ranked_length (st : MemoryStore) (query : string)
    (owner : option string) :
  length (ranked_hits st query owner) = length (remaining st query owner).
Proof. apply Permutation_length, ranked_perm. Qed.

(** X1: a query never returns more hits than asked for (for a non-negative
    [top_k]) nor more than the store holds records, whatever [top_k]. *)
Theorem query_memory_length (st : MemoryStore) (query : string)
    (owner : option string) (top_k : Z) :
  (0 <= top_k ->
   (length (query_memory st query owner top_k) <= Z.to_nat top_k)%nat)
  /\ (length (query_memory st query owner top_k) <= length (vectors st))%nat.
Proof.
  pose proof (remaining_length st query owner) as Hr.
  rewrite <- ranked_length in Hr.
  unfold query_memory, PyNum.slice_to.
  destruct (Z.ltb_spec top_k 0); rewrite length_firstn; split; lia.
Qed.

(** X2: asking for fewer hits returns a prefix of what asking for more
    returns. *)
Theorem query_memory_prefix (st : MemoryStore) (query : string)
    (owner : option string) (k1 k2 : Z) :
  0 <= k1 -> k1 <= k2 ->
  query_memory st query owner k1
  = firstn (Z.to_nat k1) (query_memory st query owner k2).
Proof.
  intros H1 H2. unfold query_memory, PyNum.slice_to.
  destruct (Z.ltb_spec k1 0); [lia|]. destruct (Z.ltb_spec k2 0); [lia|].
  rewrite firstn_firstn. f_equal. lia.
Qed.

Lemma query_memory_prefix_witness :
  0 <= 1 /\ 1 <= 2
  /\ query_memory Examples.chat "alice" None 1
     = firstn 1 (query_memory Examples.chat "alice" None 2).
Proof.
  split; [lia|]. split; [lia|].
  apply (query_memory_prefix Examples.chat "alice" None 1 2); lia.
Defined.

(** X3: with an owner filter (a non-empty string) every hit belongs to that
    owner. *)
Theorem query_memory_owner (st : MemoryStore) (query owner : string)
    (top_k : Z) (h : Hit) :
  PyStr.truthy owner = true ->
  In h (query_memory st query (Some owner) top_k) ->
  hit_owner h = owner.
Proof.
  intros Ho Hh. apply query_memory_In in Hh.
  destruct Hh as (_ & v & _ & Hm & ->). simpl.
  unfold owner_matches in Hm. simpl in Hm. rewrite Ho in Hm. simpl in Hm.
  apply String.eqb_eq in Hm. now symmetry.
Qed.

Lemma query_memory_owner_witness :
  let h := mkHit "turn:s1:0" "s1" "Hi, my name is Alice." 1%float 1%float
                 None in
  PyStr.truthy "s1" = true
  /\ In h (query_memory Examples.chat "alice" (Some "s1") 5)
  /\ hit_owner h = "s1".
Proof.
  intros h.
  assert (Hin : In h (query_memory Examples.chat "alice" (Some "s1") 5))
    by (vm_compute; left; reflexivity).
  split; [reflexivity|]. split; [exact Hin|].
  apply (query_memory_owner Examples.chat "alice" "s1" 5 h eq_refl Hin).
Defined.

Lemma remaining_add_other (st : MemoryStore)
    (convo_id role text query owner : string) (timestamp : option float)
    (now : float) :
  PyStr.truthy owner = true -> convo_id <> owner ->
  remaining (add_conversation_turn st convo_id role text timestamp now)
            query (Some owner)
  = remaining st query (Some owner).
Proof.
  intros Ho Hne. unfold remaining, scored_entries, embed_query. simpl.
  rewrite List.filter_app. simpl.
  unfold owner_matches at 2. simpl. rewrite Ho. simpl.
  destruct (String.eqb_spec owner convo_id) as [E|_]; [congruence|].
  now rewrite app_nil_r.
Qed.

(** X4: a turn added under one owner changes no query that is filtered on
    another owner. *)
Theorem query_memory_other_owner (st : MemoryStore)
    (convo_id role text query owner : string) (timestamp : option float)
    (now : float) (top_k : Z) :
  PyStr.truthy owner = true -> convo_id <> owner ->
  query_memory (add_conversation_turn st convo_id role text timestamp now)
               query (Some owner) top_k
  = query_memory st query (Some owner) top_k.
Proof.
  intros Ho Hne. unfold query_memory.
  rewrite !ranked_hits_sorted_remaining.
  now rewrite remaining_add_other.
Qed.

Lemma query_memory_other_owner_witness :
  PyStr.truthy "s1" = true /\ "s2" <> "s1"
  /\ query_memory
       (add_conversation_turn Examples.chat "s2" "user" "Alice again" None
                              3%float)
       "alice" (Some "s1") 5
     = query_memory Examples.chat "alice" (Some "s1") 5.
Proof.
  split; [reflexivity|]. split; [discriminate|].
  apply (query_memory_other_owner Examples.chat "s2" "user" "Alice again"
           "alice" "s1" None 3%float 5); [reflexivity | discriminate].
Defined.

Lemma cosine_unequal_lengths (a b : list float) :
  length a <> length b -> _cosine_similarity a b = 0%float.
Proof.
  intros H. unfold _cosine_similarity.
  destruct a as [|x a], b as [|y b]; try reflexivity.
  destruct (Nat.eqb_spec (length (x :: a)) (length (y :: b)));
    [contradiction|reflexivity].
Qed.

(** X5: when the query embedding is not empty and every record carries a
    non-empty embedding of another length, the query returns nothing: the
    cosine of vectors of unequal length is 0 and there is no fallback to the
    heuristic. *)
Theorem query_memory_dimension_mismatch (st : MemoryStore) (query : string)
    (owner : option string) (top_k : Z) (qe : list float) :
  embed_query st query = Some qe -> qe <> [] ->
  (forall v, In v (vectors st) ->
     exists e, vec_emb v = Some e /\ e <> [] /\ length e <> length qe) ->
  query_memory st query owner top_k = [].
Proof.
  intros Hq Hne Hall.
  assert (E : remaining st query owner = []).
  { unfold remaining, scored_entries. rewrite Hq.
    induction (vectors st) as [|v vs IH]; [reflexivity|].
    simpl. rewrite <- IH by (intros; apply Hall; now right).
    destruct (owner_matches owner v); [|reflexivity]. simpl.
    destruct (Hall v (or_introl eq_refl)) as (e & He & Hen & Hl).
    unfold score_positive at 1, hit_of_entry, entry_score. simpl.
    rewrite He. destruct qe as [|x qe]; [contradiction|].
    destruct e as [|y e]; [contradiction|]. simpl vec_truthy. simpl andb.
    cbv iota. simpl default.
    rewrite cosine_unequal_lengths by congruence. reflexivity. }
  unfold query_memory. rewrite ranked_hits_sorted_remaining, E.
  unfold PyNum.slice_to. simpl. now destruct (top_k <? 0); rewrite firstn_nil.
Qed.

Lemma query_memory_dimension_mismatch_witness :
  query_memory (Examples.dim2_store Examples.uneven_embedder) "doc" None 5
  = [].
Proof.
  apply (query_memory_dimension_mismatch
           (Examples.dim2_store Examples.uneven_embedder) "doc" None 5
           [1; 0; 0]%float).
  - reflexivity.
  - discriminate.
  - intros v [<-|[]]. exists [1; 0]%float.
    split; [reflexivity|]. split; discriminate.
Defined.

(** ** The store: the index mirrors the conversations *)

Lemma entries_add (st : MemoryStore) (convo_id role text owner : string)
    (timestamp : option float) (now : float) :
  entries_of (add_conversation_turn st convo_id role text timestamp now) owner
  = entries_of st owner
    ++ (if decide (convo_id = owner)
        then [indexed_turn (embedding_fn st) (embedding_dim st) owner
                (length (history st owner))
                (mkTurn role text (default now timestamp))]
        else []).
Proof.
  unfold entries_of, add_conversation_turn. simpl.
  rewrite List.filter_app. f_equal. simpl.
  destruct (decide (convo_id = owner)) as [->|Hne].
  - rewrite String.eqb_refl. unfold indexed_turn, history. simpl.
    rewrite length_app. simpl.
    now replace (length (default [] (conversations st !! owner)) + 1 - 1)%nat
      with (length (default [] (conversations st !! owner))) by lia.
  - destruct (String.eqb_spec convo_id owner); [contradiction|reflexivity].
Qed.

(** In a reachable store the index entries of an owner are, in order, the
    entries of the owner's turns. *)
Lemma entries_indexed (st : MemoryStore) (owner : string) :
  reachable_store st ->
  entries_of st owner
  = imap (indexed_turn (embedding_fn st) (embedding_dim st) owner)
         (history st owner).
Proof.
  induction 1 as [fn dim | st c r t ts now _ IH | st u p _ IH].
  - reflexivity.
  - rewrite entries_add, history_add, IH.
    change (embedding_fn (add_conversation_turn st c r t ts now))
      with (embedding_fn st).
    change (embedding_dim (add_conversation_turn st c r t ts now))
      with (embedding_dim st).
    destruct (decide (c = owner)); [|now rewrite app_nil_r].
    rewrite imap_app. simpl. now rewrite Nat.add_0_r.
  - exact IH.
Qed.

(** X6: in a reachable store the index and the conversations agree: for
    every owner the texts and the timestamps of the owner's index entries are
    those of the owner's turns, in the same order, one entry per turn. *)
Theorem index_mirrors_history (st : MemoryStore) (owner : string) :
  reachable_store st ->
  map vec_text (entries_of st owner) = map turn_text (history st owner)
  /\ map vec_ts (entries_of st owner) = map turn_timestamp (history st owner)
  /\ length (entries_of st owner) = length (history st owner).
Proof.
  intros H. rewrite (entries_indexed st owner H).
  assert (G : forall (l : list Turn) (k : nat),
             map vec_text (imap (fun i => indexed_turn (embedding_fn st)
                                   (embedding_dim st) owner (k + i)) l)
             = map turn_text l
             /\ map vec_ts (imap (fun i => indexed_turn (embedding_fn st)
                                    (embedding_dim st) owner (k + i)) l)
                = map turn_timestamp l).
  { induction l as [|t l IHl]; intros k; [split; reflexivity|].
    simpl. destruct (IHl (S k)) as [E1 E2].
    split; f_equal.
    - rewrite <- E1. f_equal. apply imap_ext. intros. simpl.
      f_equal. lia.
    - rewrite <- E2. f_equal. apply imap_ext. intros. simpl.
      f_equal. lia. }
  destruct (G (history st owner) 0%nat) as [E1 E2].
  split; [exact E1|]. split; [exact E2|]. apply length_imap.
Qed.

Lemma index_mirrors_history_witness :
  reachable_store Examples.chat
  /\ map vec_text (entries_of Examples.chat "s1")
     = map turn_text (history Examples.chat "s1").
Proof.
  assert (H : reachable_store Examples.chat)
    by (apply store_turn, store_turn, store_new).
  split; [exact H|].
  apply (index_mirrors_history Examples.chat "s1" H).
Defined.

(** ** The store: record ids *)

Lemma pretty_go_colon_free (x : N) (s : string) :
  PyStr.has_char ":" s = false ->
  PyStr.has_char ":" (pretty_N_go x s) = false.
Proof.
  revert s. induction (N.lt_wf_0 x) as [x _ IH]. intros s Hs.
  destruct (N.eq_dec x 0%N) as [->|Hx]; [now rewrite pretty_N_go_0|].
  rewrite pretty_N_go_step by lia. apply IH; [apply N.div_lt; lia|].
  simpl. rewrite Hs, orb_false_r.
  unfold pretty_N_char. destruct (x `mod` 10)%N as [|p]; [reflexivity|].
  do 4 (try (destruct p as [p|p|]; try reflexivity)).
Qed.

Lemma pretty_nat_colon_free (n : nat) :
  PyStr.has_char ":" (pretty n) = false.
Proof.
  unfold pretty, pretty_nat, pretty, pretty_N.
  destruct (decide (N.of_nat n = 0%N)); [reflexivity|].
  now apply pretty_go_colon_free.
Qed.

Lemma has_char_mid (c : ascii) (s d : string) :
  PyStr.has_char c (s +:+ String c d) = true.
Proof.
  induction s as [|a s IH]; simpl.
  - now rewrite Ascii.eqb_refl.
  - rewrite IH. apply orb_true_r.
Qed.

(** A string is cut at its last colon in one way only. *)
Lemma colon_split (s1 d1 s2 d2 : string) :
  PyStr.has_char ":" d1 = false -> PyStr.has_char ":" d2 = false ->
  s1 +:+ String ":" d1 = s2 +:+ String ":" d2 ->
  s1 = s2 /\ d1 = d2.
Proof.
  intros H1 H2. revert s2.
  induction s1 as [|a s1 IH]; intros [|b s2] E; simpl in E.
  - injection E as ->. auto.
  - injection E as <- E. rewrite E, has_char_mid in H1. discriminate.
  - injection E as -> E. rewrite <- E, has_char_mid in H2. discriminate.
  - injection E as -> E. destruct (IH s2 E) as [-> ->]. auto.
Qed.

(** The id of a turn determines its owner and its position. *)
Lemma turn_id_inj (o1 o2 : string) (i j : nat) :
  "turn:" +:+ o1 +:+ ":" +:+ pretty i = "turn:" +:+ o2 +:+ ":" +:+ pretty j ->
  o1 = o2 /\ i = j.
Proof.
  intros E. simpl in E. injection E as E.
  apply colon_split in E; try apply pretty_nat_colon_free.
  destruct E as [-> E]. split; [reflexivity|].
  now apply (inj pretty) in E.
Qed.

(** In a reachable store every index entry is the entry of a turn of its
    owner. *)
Lemma entry_is_indexed (st : MemoryStore) (v : VectorEntry) :
  reachable_store st -> In v (vectors st) ->
  exists i, (i < length (history st (vec_owner v)))%nat
            /\ vec_id v = "turn:" +:+ vec_owner v +:+ ":" +:+ pretty i.
Proof.
  intros Hr Hv.
  assert (Hin : In v (entries_of st (vec_owner v))).
  { apply filter_In. split; [exact Hv|]. apply String.eqb_refl. }
  rewrite (entries_indexed _ _ Hr) in Hin.
  apply list_elem_of_In, elem_of_lookup_imap in Hin.
  destruct Hin as (i & t & -> & Hl). exists i. split; [|reflexivity].
  simpl. now apply lookup_lt_Some in Hl.
Qed.

(** X7: in a reachable store no two index entries share a record id: the
    id "turn:<owner>:<n>" names the owner and the position of the turn. *)
Theorem record_ids_unique (st : MemoryStore) :
  reachable_store st -> List.NoDup (map vec_id (vectors st)).
Proof.
  intros Hr. induction Hr as [fn dim | st c r t ts now Hr IH | st u p _ IH].
  - constructor.
  - unfold add_conversation_turn. simpl. rewrite map_app. simpl.
    apply List.NoDup_app; [exact IH | repeat constructor; auto |].
    intros x Hx [Hnew|[]]. subst x.
    apply in_map_iff in Hx. destruct Hx as (v & Hid & Hv).
    destruct (entry_is_indexed st v Hr Hv) as (i & Hi & Ev).
    rewrite Ev in Hid. rewrite length_app in Hid. simpl in Hid.
    apply turn_id_inj in Hid. destruct Hid as [Ho Hn].
    rewrite Ho in Hi. unfold history in Hi. lia.
  - exact IH.
Qed.

Lemma record_ids_unique_witness :
  List.NoDup (map vec_id (vectors Examples.chat)).
Proof.
  apply (record_ids_unique Examples.chat).
  apply store_turn, store_turn, store_new.
Defined.

(** ** The store: histories and profiles *)

(** X8: after a turn is added, the most recent [n + 1] turns of its owner
    are the most recent [n] turns of before followed by the new turn (for
    [n > 0]), the most recent turn is the new one, and another owner's
    history is read as before. *)
Theorem get_conversation_after_add (st : MemoryStore)
    (convo_id role text : string) (timestamp : option float) (now : float)
    (n : Z) :
  0 < n ->
  let st' := add_conversation_turn st convo_id role text timestamp now in
  let turn := mkTurn role text (default now timestamp) in
  get_conversation st' convo_id (Some (n + 1))
  = get_conversation st convo_id (Some n) ++ [turn]
  /\ get_conversation st' convo_id (Some 1) = [turn]
  /\ (forall other limit, convo_id <> other ->
        get_conversation st' other limit = get_conversation st other limit).
Proof.
  intros Hn st' turn.
  assert (Hh : history st' convo_id = history st convo_id ++ [turn]).
  { subst st'. rewrite history_add.
    destruct (decide (convo_id = convo_id)); [reflexivity|contradiction]. }
  assert (G : forall m, 0 < m ->
            get_conversation st' convo_id (Some m)
            = skipn (length (history st convo_id) + 1 - Z.to_nat m)
                    (history st convo_id ++ [turn])).
  { intros m Hm. unfold get_conversation. fold (history st' convo_id).
    rewrite Hh. simpl. destruct (Z.eqb_spec m 0); [lia|]. simpl.
    unfold PyNum.slice_from. destruct (Z.ltb_spec (- m) 0); [|lia].
    f_equal. rewrite length_app. simpl. lia. }
  split; [|split].
  - rewrite G by lia. rewrite skipn_app.
    replace (length (history st convo_id) + 1 - Z.to_nat (n + 1)
             - length (history st convo_id))%nat with 0%nat by lia.
    simpl. f_equal. unfold get_conversation. fold (history st convo_id).
    simpl. destruct (Z.eqb_spec n 0); [lia|]. simpl.
    unfold PyNum.slice_from. destruct (Z.ltb_spec (- n) 0); [|lia].
    f_equal. lia.
  - rewrite G by lia. rewrite skipn_app.
    replace (length (history st convo_id) + 1 - Z.to_nat 1)%nat
      with (length (history st convo_id)) by lia.
    rewrite skipn_all, Nat.sub_diag. reflexivity.
  - intros other limit Hne. unfold get_conversation.
    fold (history st' other) (history st other). subst st'.
    rewrite history_add.
    destruct (decide (convo_id = other)); [contradiction|reflexivity].
Qed.

Lemma get_conversation_after_add_witness :
  0 < 1
  /\ get_conversation
       (add_conversation_turn Examples.chat "s1" "user" "Bye." None 3%float)
       "s1" (Some 2)
     = get_conversation Examples.chat "s1" (Some 1)
       ++ [mkTurn "user" "Bye." 3%float].
Proof.
  split; [lia|].
  apply (get_conversation_after_add Examples.chat "s1" "user" "Bye." None
           3%float 1). lia.
Defined.

(** X9: a profile update wins key by key over what was stored: after
    [add_user_profile] a key of the update reads its new value, any other
    key its old one; the profile of a user never written is empty; other
    users' profiles, the conversations and the index are untouched. *)
Theorem profile_last_write_wins (st : MemoryStore) (user_id : string)
    (profile : gmap string string) (key : string) :
  let st' := add_user_profile st user_id profile in
  get_user_profile st' user_id !! key
  = match profile !! key with
    | Some value => Some value
    | None => get_user_profile st user_id !! key
    end
  /\ (profiles st !! user_id = None -> get_user_profile st user_id = ∅)
  /\ (forall other, user_id <> other ->
        get_user_profile st' other = get_user_profile st other)
  /\ conversations st' = conversations st
  /\ vectors st' = vectors st.
Proof.
  intros st'. subst st'. unfold get_user_profile, add_user_profile. simpl.
  split; [|split; [|split; [|split]]]; try reflexivity.
  - rewrite lookup_insert_eq. simpl. rewrite lookup_union.
    destruct (profile !! key), (default ∅ (profiles st !! user_id) !! key);
      reflexivity.
  - intros ->. reflexivity.
  - intros other Hne. now rewrite lookup_insert_ne.
Qed.

(** X10: two profile updates of one user amount to one update with the
    second merged over the first. *)
Theorem profile_updates_compose (st : MemoryStore) (user_id : string)
    (p1 p2 : gmap string string) :
  add_user_profile (add_user_profile st user_id p1) user_id p2
  = add_user_profile st user_id (p2 ∪ p1).
Proof.
  unfold add_user_profile. simpl. f_equal.
  rewrite lookup_insert_eq. simpl. rewrite insert_insert_eq.
  now rewrite (assoc_L (∪)).
Qed.

(** ** The store: the prompt snippet *)

Lemma prompt_loop_raised (strftime : float -> option string)
    (items : list Hit) :
  fold_left (prompt_step strftime) items None = None.
Proof. induction items as [|it l IH]; [reflexivity | exact IH]. Qed.

Lemma prompt_loop_raises (strftime : float -> option string)
    (items : list Hit) (parts : list string) :
  Exists (fun it => strftime (hit_timestamp it) = None) items ->
  fold_left (prompt_step strftime) items (Some parts) = None.
Proof.
  revert parts. induction items as [|it l IH]; intros parts H.
  - inversion H.
  - cbn [fold_left prompt_step].
    destruct (strftime (hit_timestamp it)) as [t|] eqn:E.
    + apply IH. inversion H as [? ? H0 | ? ? H0]; subst; [congruence | exact H0].
    + apply prompt_loop_raised.
Qed.

Lemma prompt_loop_formats (strftime : float -> option string)
    (items : list Hit) (parts : list string) :
  Forall (fun it => strftime (hit_timestamp it) <> None) items ->
  exists lines, fold_left (prompt_step strftime) items (Some parts)
                = Some (parts ++ lines)
                /\ length lines = length items.
Proof.
  revert parts. induction items as [|it l IH]; intros parts H.
  - exists []. now rewrite app_nil_r.
  - cbn [fold_left prompt_step]. inversion H as [|? ? H1 H2]; subst.
    destruct (strftime (hit_timestamp it)) as [t|]; [|congruence].
    destruct (IH (parts ++ ["[" +:+ t +:+ "] " +:+ hit_text it]) H2)
      as (lines & E & Hl).
    exists (("[" +:+ t +:+ "] " +:+ hit_text it) :: lines).
    rewrite E, <- app_assoc. split; [reflexivity | simpl; now rewrite Hl].
Qed.

Lemma timestamps_format_or_raise (strftime : float -> option string)
    (items : list Hit) :
  Forall (fun it => strftime (hit_timestamp it) <> None) items
  \/ Exists (fun it => strftime (hit_timestamp it) = None) items.
Proof.
  induction items as [|it l [IH|IH]].
  - left. constructor.
  - destruct (strftime (hit_timestamp it)) as [t|] eqn:E.
    + left. constructor; [congruence | exact IH].
    + right. now constructor.
  - right. now constructor 2.
Qed.

(** X11: [build_memory_prompt] raises exactly when [time.localtime] raises
    on the timestamp of one of the hits of the query in that conversation.
    It returns the empty string exactly when the query has no hit there; when
    there are hits and all their timestamps can be formatted, it returns a
    text that starts with the header line. *)
Theorem build_memory_prompt_empty (strftime : float -> option string)
    (st : MemoryStore) (convo_id query : string) (k : Z) :
  let items := query_memory st query (Some convo_id) k in
  (build_memory_prompt strftime st convo_id query k = None
   <-> Exists (fun it => strftime (hit_timestamp it) = None) items)
  /\ (build_memory_prompt strftime st convo_id query k = Some ""
      <-> items = [])
  /\ (items <> [] ->
      Forall (fun it => strftime (hit_timestamp it) <> None) items ->
      exists text,
        build_memory_prompt strftime st convo_id query k = Some text
        /\ String.prefix ("Relevant past conversation snippets:" +:+ newline)
                         text = true).
Proof.
  intros items. unfold build_memory_prompt. fold items.
  destruct (timestamps_format_or_raise strftime items) as [Hok|Hbad].
  - destruct (prompt_loop_formats strftime items [] Hok) as (lines & E & Hl).
    rewrite E. cbn [app].
    assert (Hno : ~ Exists (fun it => strftime (hit_timestamp it) = None)
                           items).
    { intros Hex. apply List.Exists_exists in Hex as (it & Hin & Hit).
      rewrite List.Forall_forall in Hok. exact (Hok it Hin Hit). }
    destruct lines as [|line lines].
    + destruct items; [|discriminate Hl].
      repeat split; try tauto; try discriminate; try congruence.
    + destruct items as [|it l]; [discriminate Hl|].
      repeat split; try tauto; try discriminate; try congruence.
      intros _ _. eexists. split; [reflexivity|].
      apply prefix_app. eexists. reflexivity.
  - rewrite (prompt_loop_raises strftime items [] Hbad).
    repeat split; try tauto; try discriminate.
    + intros ->. inversion Hbad.
    + intros _ Hok. apply List.Exists_exists in Hbad as (it & Hin & Hit).
      rewrite List.Forall_forall in Hok. destruct (Hok it Hin Hit).
Qed.

(** ** [retrieve]: what the merged list is *)

Lemma filtered_hit_owner (st : MemoryStore) (query owner : string) (k : Z)
    (h : Hit) :
  PyStr.truthy owner = true ->
  In h (query_memory st query (Some owner) k) -> hit_owner h = owner.
Proof.
  intros Ho Hh. apply query_memory_In in Hh.
  destruct Hh as (_ & v & _ & Hm & ->). unfold owner_matches in Hm.
  simpl in *. rewrite Ho in Hm. now apply String.eqb_eq in Hm.
Qed.


Lemma dedup_loop_from (l : list Hit) (seen : gset string)
    (merged : list Hit) :
  snd (fold_left dedup_step l (seen, merged)) = merged ++ dedup_from seen l.
Proof.
  revert seen merged. induction l as [|r l IH]; intros seen merged.
  - simpl. now rewrite app_nil_r.
  - cbn [fold_left dedup_from]. unfold dedup_step at 2.
    destruct (decide (hit_text r ∈ seen)); rewrite IH; [reflexivity|].
    now rewrite <- app_assoc.
Qed.

Lemma dedup_by_text_from (l : list Hit) :
  dedup_by_text l = dedup_from ∅ l.
Proof. unfold dedup_by_text. now rewrite dedup_loop_from. Qed.

Lemma dedup_from_In (seen : gset string) (l : list Hit) (h : Hit) :
  In h (dedup_from seen l) -> In h l /\ hit_text h ∉ seen.
Proof.
  revert seen. induction l as [|r l IH]; intros seen; simpl; [tauto|].
  destruct (decide (hit_text r ∈ seen)) as [|Hn].
  - intros H. apply IH in H. tauto.
  - intros [<-|H]; [auto|]. apply IH in H. destruct H as [H1 H2].
    split; [auto|]. intros Hs. apply H2, elem_of_union. now right.
Qed.

Lemma dedup_from_NoDup (seen : gset string) (l : list Hit) :
  List.NoDup (map hit_text (dedup_from seen l)).
Proof.
  revert seen. induction l as [|r l IH]; intros seen; simpl; [constructor|].
  destruct (decide (hit_text r ∈ seen)); [apply IH|].
  simpl. constructor; [|apply IH].
  intros Hin. apply in_map_iff in Hin. destruct Hin as (h & Et & Hh).
  apply dedup_from_In in Hh. destruct Hh as [_ Hh].
  apply Hh, elem_of_union. left. now apply elem_of_singleton.
Qed.

Lemma dedup_from_complete (seen : gset string) (l : list Hit) (h : Hit) :
  In h l ->
  hit_text h ∈ seen
  \/ exists h', In h' (dedup_from seen l) /\ hit_text h' = hit_text h.
Proof.
  revert seen. induction l as [|r l IH]; intros seen; simpl; [tauto|].
  destruct (decide (hit_text r ∈ seen)) as [Hs|Hn].
  - intros [<-|H]; [now left|]. now apply IH.
  - intros [<-|H].
    + right. exists r. simpl. auto.
    + destruct (IH ({[hit_text r]} ∪ seen) H) as [Hs|(h' & Hh' & Et)].
      * apply elem_of_union in Hs. destruct Hs as [Hs|Hs]; [|now left].
        apply elem_of_singleton in Hs. right. exists r. simpl. auto.
      * right. exists h'. simpl. auto.
Qed.

Lemma dedup_from_sorted (seen : gset string) (l : list Hit) :
  StronglySorted (desc hit_score) l ->
  StronglySorted (desc hit_score) (dedup_from seen l).
Proof.
  intros Hs. revert seen.
  induction Hs as [|r l Hs IH Hr]; intros seen; simpl; [constructor|].
  destruct (decide (hit_text r ∈ seen)); [apply IH|].
  constructor; [apply IH|].
  apply List.Forall_forall. intros h Hh. apply dedup_from_In in Hh.
  rewrite List.Forall_forall in Hr. now apply Hr.
Qed.

Lemma dedup_from_best (seen : gset string) (l : list Hit) (h c : Hit) :
  StronglySorted (desc hit_score) l ->
  In h (dedup_from seen l) -> In c l -> hit_text c = hit_text h ->
  desc hit_score h c.
Proof.
  intros Hs. revert seen.
  induction Hs as [|r l Hs IH Hr]; intros seen; simpl; [tauto|].
  rewrite List.Forall_forall in Hr.
  destruct (decide (hit_text r ∈ seen)) as [Hin|Hn].
  - intros Hh [<-|Hc] Et; [|now apply (IH seen)].
    apply dedup_from_In in Hh. destruct Hh as [_ Hh]. congruence.
  - intros [<-|Hh] [<-|Hc] Et.
    + apply FloatOrder.ltb_irrefl.
    + now apply Hr.
    + apply dedup_from_In in Hh. destruct Hh as [_ Hh]. exfalso.
      apply Hh, elem_of_union. left. now apply elem_of_singleton.
    + now apply (IH ({[hit_text r]} ∪ seen)).
Qed.

Lemma retrieve_hits (mgr : RAGManager) (query : string)
    (user_id : option string) (kg ku : Z) :
  fst (retrieve mgr query user_id kg ku)
  = dedup_from ∅ (sort_desc hit_score
                    (combined_hits mgr query user_id kg ku)).
Proof. now rewrite retrieve_unfold, dedup_by_text_from. Qed.

(** X12: no two hits that [retrieve] returns have the same text. *)
Theorem retrieve_texts_distinct (mgr : RAGManager) (query : string)
    (user_id : option string) (kg ku : Z) :
  List.NoDup (map hit_text (fst (retrieve mgr query user_id kg ku))).
Proof. rewrite retrieve_hits. apply dedup_from_NoDup. Qed.

(** X13: the hits that [retrieve] returns stand in descending order of
    score. *)
Theorem retrieve_sorted (mgr : RAGManager) (query : string)
    (user_id : option string) (kg ku : Z) :
  StronglySorted (desc hit_score) (fst (retrieve mgr query user_id kg ku)).
Proof.
  rewrite retrieve_hits. apply dedup_from_sorted, sort_desc_sorted.
  apply combined_positive.
Qed.

(** X14: every hit that [retrieve] returns either has the source "global"
    and the owner "global", or the source "user" and the owner
    "user:<user_id>" of the user the call names: no hit comes from another
    user's scope, and without a user id every hit is global. *)
Theorem retrieve_provenance (mgr : RAGManager) (query : string)
    (user_id : option string) (kg ku : Z) (h : Hit) :
  In h (fst (retrieve mgr query user_id kg ku)) ->
  (hit_source h = Some "global" /\ hit_owner h = "global")
  \/ (exists uid, user_id = Some uid /\ PyStr.truthy uid = true
        /\ hit_source h = Some "user"
        /\ hit_owner h = "user:" +:+ uid).
Proof.
  rewrite retrieve_hits. intros Hh. apply dedup_from_In in Hh.
  destruct Hh as [Hh _]. apply (proj1 (sort_desc_In _ _ _)) in Hh.
  unfold combined_hits in Hh. apply in_app_or in Hh.
  destruct Hh as [Hh|Hh].
  - left. apply in_map_iff in Hh. destruct Hh as (r & <- & Hr).
    split; [reflexivity|]. simpl.
    now apply (filtered_hit_owner _ _ "global" _ _ eq_refl) in Hr.
  - right. destruct (str_truthy user_id) eqn:Hu; [|contradiction].
    destruct user_id as [uid|]; [|discriminate]. simpl in Hu, Hh.
    exists uid. apply in_map_iff in Hh. destruct Hh as (r & <- & Hr).
    repeat split; auto. simpl.
    now apply (filtered_hit_owner _ _ ("user:" +:+ uid) _ _ eq_refl) in Hr.
Qed.

Lemma retrieve_provenance_witness :
  let h := mkHit "turn:global:0" "global" "pythag: a^2 + b^2 = c^2"
                 1%float 1%float (Some "global") in
  In h (fst (retrieve Examples.shared_doc "pythag" (Some "alice") 3 3))
  /\ ((hit_source h = Some "global" /\ hit_owner h = "global")
      \/ (exists uid, Some "alice" = Some uid /\ PyStr.truthy uid = true
            /\ hit_source h = Some "user"
            /\ hit_owner h = "user:" +:+ uid)).
Proof.
  intros h.
  assert (Hin : In h (fst (retrieve Examples.shared_doc "pythag"
                                    (Some "alice") 3 3)))
    by (vm_compute; left; reflexivity).
  split; [exact Hin|].
  apply (retrieve_provenance Examples.shared_doc "pythag" (Some "alice") 3 3
           h Hin).
Defined.

Lemma dedup_from_length (seen : gset string) (l : list Hit) :
  (length (dedup_from seen l) <= length l)%nat.
Proof.
  revert seen. induction l as [|r l IH]; intros seen; simpl; [lia|].
  destruct (decide (hit_text r ∈ seen)); simpl.
  - specialize (IH seen). lia.
  - specialize (IH ({[hit_text r]} ∪ seen)). lia.
Qed.

Lemma slice_to_length {A} (l : list A) (k : Z) :
  0 <= k -> (length (PyNum.slice_to l k) <= Z.to_nat k)%nat.
Proof.
  intros Hk. unfold PyNum.slice_to. destruct (Z.ltb_spec k 0); [lia|].
  rewrite length_firstn. lia.
Qed.

(** X15: for non-negative bounds [retrieve] returns at most
    [top_k_global + top_k_user] hits, and at most [top_k_global] when no
    user id is given. *)
Theorem retrieve_length (mgr : RAGManager) (query : string)
    (user_id : option string) (kg ku : Z) :
  0 <= kg -> 0 <= ku ->
  (length (fst (retrieve mgr query user_id kg ku)) <= Z.to_nat (kg + ku))%nat
  /\ (str_truthy user_id = false ->
      (length (fst (retrieve mgr query user_id kg ku)) <= Z.to_nat kg)%nat).
Proof.
  intros Hg Hu. rewrite retrieve_hits.
  pose proof (dedup_from_length ∅
                (sort_desc hit_score
                   (combined_hits mgr query user_id kg ku))) as Hd.
  rewrite (Permutation_length (sort_desc_perm hit_score _)) in Hd.
  revert Hd.
  generalize (length (dedup_from ∅
                        (sort_desc hit_score
                           (combined_hits mgr query user_id kg ku)))).
  intros n Hd.
  unfold combined_hits in Hd. rewrite length_app, length_map in Hd.
  pose proof (slice_to_length
                (ranked_hits (global_store mgr) query (Some "global")) kg Hg)
    as Lg.
  fold (query_memory (global_store mgr) query (Some "global") kg) in Lg.
  unfold global_hits in Hd.
  destruct (str_truthy user_id).
  - rewrite length_map in Hd. unfold user_hits in Hd.
    pose proof (slice_to_length
                  (ranked_hits (fst (_get_user_store mgr (default "" user_id)))
                     query (Some ("user:" +:+ default "" user_id))) ku Hu)
      as Lu.
    fold (query_memory (fst (_get_user_store mgr (default "" user_id)))
            query (Some ("user:" +:+ default "" user_id)) ku) in Lu.
    split; [lia|discriminate].
  - simpl in Hd. split; [lia|]. intros _. lia.
Qed.

Lemma retrieve_length_witness :
  0 <= 3 /\ 0 <= 3
  /\ (length (fst (retrieve Examples.shared_doc "pythag" (Some "alice") 3 3))
      <= Z.to_nat (3 + 3))%nat.
Proof.
  split; [lia|]. split; [lia|].
  apply (retrieve_length Examples.shared_doc "pythag" (Some "alice") 3 3);
    lia.
Defined.

(** X16: the de-duplication loses no text: every text among the global hits
    and the user hits of the call is the text of a returned hit. *)
Theorem retrieve_keeps_every_text (mgr : RAGManager) (query : string)
    (user_id : option string) (kg ku : Z) (c : Hit) :
  In c (combined_hits mgr query user_id kg ku) ->
  exists h, In h (fst (retrieve mgr query user_id kg ku))
            /\ hit_text h = hit_text c.
Proof.
  intros Hc. rewrite retrieve_hits.
  apply (proj2 (sort_desc_In hit_score _ _)) in Hc.
  destruct (dedup_from_complete ∅ _ _ Hc) as [H|H]; [|exact H].
  now apply not_elem_of_empty in H.
Qed.

Lemma retrieve_keeps_every_text_witness :
  let c := mkHit "turn:user:alice:0" "user:alice" "pythag: a^2 + b^2 = c^2"
                 1%float 2%float (Some "user") in
  In c (combined_hits Examples.shared_doc "pythag" (Some "alice") 3 3)
  /\ exists h,
       In h (fst (retrieve Examples.shared_doc "pythag" (Some "alice") 3 3))
       /\ hit_text h = hit_text c.
Proof.
  intros c.
  assert (Hc : In c (combined_hits Examples.shared_doc "pythag"
                                   (Some "alice") 3 3))
    by (vm_compute; right; left; reflexivity).
  split; [exact Hc|].
  apply (retrieve_keeps_every_text Examples.shared_doc "pythag"
           (Some "alice") 3 3 c Hc).
Defined.

(** X17: of the hits with one text, the one returned is a best-scoring
    one: no global or user hit of the call with the same text scores
    higher. *)
Theorem retrieve_keeps_best (mgr : RAGManager) (query : string)
    (user_id : option string) (kg ku : Z) (h c : Hit) :
  In h (fst (retrieve mgr query user_id kg ku)) ->
  In c (combined_hits mgr query user_id kg ku) ->
  hit_text c = hit_text h ->
  (hit_score h <? hit_score c)%float = false.
Proof.
  rewrite retrieve_hits. intros Hh Hc Et.
  apply (proj2 (sort_desc_In hit_score _ _)) in Hc.
  apply (dedup_from_best ∅
           (sort_desc hit_score (combined_hits mgr query user_id kg ku))
           h c); auto.
  apply sort_desc_sorted, combined_positive.
Qed.

Lemma retrieve_keeps_best_witness :
  let h := mkHit "turn:global:0" "global" "pythag: a^2 + b^2 = c^2"
                 1%float 1%float (Some "global") in
  let c := mkHit "turn:user:alice:0" "user:alice" "pythag: a^2 + b^2 = c^2"
                 1%float 2%float (Some "user") in
  In h (fst (retrieve Examples.shared_doc "pythag" (Some "alice") 3 3))
  /\ In c (combined_hits Examples.shared_doc "pythag" (Some "alice") 3 3)
  /\ (hit_score h <? hit_score c)%float = false.
Proof.
  intros h c.
  assert (Hh : In h (fst (retrieve Examples.shared_doc "pythag"
                                   (Some "alice") 3 3)))
    by (vm_compute; left; reflexivity).
  assert (Hc : In c (combined_hits Examples.shared_doc "pythag"
                                   (Some "alice") 3 3))
    by (vm_compute; right; left; reflexivity).
  split; [exact Hh|]. split; [exact Hc|].
  apply (retrieve_keeps_best Examples.shared_doc "pythag" (Some "alice") 3 3
           h c Hh Hc eq_refl).
Defined.

(** ** The manager: adding documents *)

(** X18: [add_user_document] appends the text "<doc_id>: <text>" to the
    index of that user's store (created on first use, reused afterwards),
    and leaves the global store and every other user's store as they are. *)
Theorem add_user_document_appends (mgr : RAGManager)
    (user_id doc_id text : string) (timestamp : option float) (now : float) :
  let mgr' := add_user_document mgr user_id doc_id text timestamp now in
  map vec_text (user_vectors mgr' user_id)
  = map vec_text (user_vectors mgr user_id) ++ [doc_id +:+ ": " +:+ text]
  /\ map vec_owner (user_vectors mgr' user_id)
     = map vec_owner (user_vectors mgr user_id) ++ ["user:" +:+ user_id]
  /\ global_store mgr' = global_store mgr
  /\ (forall other, user_id <> other ->
        user_stores mgr' !! other = user_stores mgr !! other).
Proof.
  intros mgr'. subst mgr'. unfold add_user_document, _get_user_store,
    user_vectors.
  destruct (user_stores mgr !! user_id) as [store|] eqn:E; simpl;
    rewrite lookup_insert_eq; simpl.
  - rewrite !map_app. repeat split.
    intros other Hne. now rewrite lookup_insert_ne.
  - repeat split. intros other Hne. now rewrite !lookup_insert_ne.
Qed.

Lemma slice_to_all {A} (l : list A) (k : Z) :
  Z.of_nat (length l) <= k -> PyNum.slice_to l k = l.
Proof.
  intros H. unfold PyNum.slice_to. destruct (Z.ltb_spec k 0); [lia|].
  apply firstn_all2. lia.
Qed.

Lemma heuristic_score_substring (query text : string) :
  PyStr.contains (PyStr.lower query) (PyStr.lower text) = true ->
  heuristic_score query text = 1%float.
Proof. intros H. unfold heuristic_score. now rewrite H. Qed.

(** A document added to a global store without embedder is found by a query
    that occurs in it, when [top_k_global] is large enough. *)
Lemma global_document_found (mgr : RAGManager)
    (doc_id text query : string) (timestamp : option float) (now : float)
    (user_id : option string) (kg ku : Z) :
  embedding_fn (global_store mgr) = None ->
  PyStr.contains (PyStr.lower query)
                 (PyStr.lower (doc_id +:+ ": " +:+ text)) = true ->
  Z.of_nat (length (vectors (global_store mgr))) < kg ->
  exists h,
    In h (fst (retrieve (add_global_document mgr doc_id text timestamp now)
                        query user_id kg ku))
    /\ hit_text h = doc_id +:+ ": " +:+ text.
Proof.
  intros Hfn Hq Hk.
  set (mgr' := add_global_document mgr doc_id text timestamp now).
  set (t := doc_id +:+ ": " +:+ text) in *.
  set (v := mkVec ("turn:global:" +:+
                   pretty (length (default [] (conversations
                                      (global_store mgr) !! "global")
                                   ++ [mkTurn "system" t
                                         (default now timestamp)]) - 1)%nat)
                  "global" t None (default now timestamp)).
  assert (Hv : vectors (global_store mgr')
               = vectors (global_store mgr) ++ [v]).
  { subst mgr' v. unfold add_global_document, add_conversation_turn. simpl.
    unfold stored_embedding. now rewrite Hfn. }
  set (h := hit_of_entry (embed_query (global_store mgr') query) query v).
  assert (Hs : hit_score h = 1%float).
  { subst h. unfold hit_of_entry, entry_score. simpl.
    rewrite andb_false_r. now apply heuristic_score_substring. }
  assert (Hin : In h (global_hits mgr' query kg)).
  { unfold global_hits, query_memory.
    rewrite slice_to_all.
    - apply (Permutation_in _ (Permutation_sym (ranked_perm _ _ _))).
      apply filter_In. split.
      + unfold scored_entries. apply in_map. apply filter_In.
        split; [rewrite Hv; apply in_or_app; right; now left | reflexivity].
      + unfold score_positive. now rewrite Hs.
    - rewrite ranked_length.
      pose proof (remaining_length (global_store mgr') query (Some "global"))
        as Hl.
      rewrite Hv, length_app in Hl. change (length [v]) with 1%nat in Hl.
      lia. }
  assert (Hc : In (with_source "global" h)
                  (sort_desc hit_score
                     (combined_hits mgr' query user_id kg ku))).
  { apply sort_desc_In. unfold combined_hits. apply in_or_app. left.
    now apply in_map. }
  rewrite retrieve_hits.
  destruct (dedup_from_complete ∅ _ _ Hc) as [H|(h' & Hh' & Et)].
  - now apply not_elem_of_empty in H.
  - exists h'. split; [exact Hh'|]. rewrite Et. reflexivity.
Qed.

(** X19: without an embedder, a document added to the global store is found
    again: when the lowercase query is a substring of the lowercase
    "<doc_id>: <text>" and [top_k_global] exceeds the number of records the
    global store held, [retrieve] returns a hit with that text. *)
Theorem added_document_is_retrieved (mgr : RAGManager)
    (doc_id text query : string) (timestamp : option float) (now : float)
    (user_id : option string) (kg ku : Z) :
  embedding_fn (global_store mgr) = None ->
  PyStr.contains (PyStr.lower query)
                 (PyStr.lower (doc_id +:+ ": " +:+ text)) = true ->
  Z.of_nat (length (vectors (global_store mgr))) < kg ->
  exists h,
    In h (fst (retrieve (add_global_document mgr doc_id text timestamp now)
                        query user_id kg ku))
    /\ hit_text h = doc_id +:+ ": " +:+ text.
Proof.
  apply global_document_found.
Qed.

Lemma added_document_is_retrieved_witness :
  exists h,
    In h (fst (retrieve
                 (add_global_document (new_manager None None) "pythag"
                    "a^2 + b^2 = c^2" None 1%float)
                 "pythag" None 3 3))
    /\ hit_text h = "pythag: a^2 + b^2 = c^2".
Proof.
  apply (added_document_is_retrieved (new_manager None None) "pythag"
           "a^2 + b^2 = c^2" "pythag" None 1%float None 3 3).
  - reflexivity.
  - reflexivity.
  - simpl. lia.
Defined.

(** X20: [build_rag_context] returns the empty string exactly when
    [retrieve] has no hit, and otherwise a text that starts with the header
    line; its effect on the manager is that of [retrieve]. *)
Theorem build_rag_context_empty (mgr : RAGManager) (query : string)
    (user_id : option string) (kg ku : Z) :
  (fst (build_rag_context mgr query user_id kg ku) = ""
   <-> fst (retrieve mgr query user_id kg ku) = [])
  /\ (fst (retrieve mgr query user_id kg ku) <> [] ->
      String.prefix ("Relevant documents (RAG):" +:+ newline)
                    (fst (build_rag_context mgr query user_id kg ku)) = true)
  /\ snd (build_rag_context mgr query user_id kg ku)
     = snd (retrieve mgr query user_id kg ku).
Proof.
  unfold build_rag_context.
  destruct (retrieve mgr query user_id kg ku) as [[|h hits] mgr1]; simpl.
  - split; [tauto|]. split; [congruence|reflexivity].
  - split; [split; discriminate|]. split; [|reflexivity]. intros _.
    apply prefix_app. eexists. reflexivity.
Qed.

(** ** The manager: scopes *)

Lemma scoped_get_user_store (mgr : RAGManager) (uid : string) :
  scoped mgr -> scoped (snd (_get_user_store mgr uid)).
Proof.
  intros [Hg Hu]. unfold _get_user_store.
  destruct (user_stores mgr !! uid) eqn:E; simpl; [now split|].
  split; [exact Hg|]. simpl. intros u st v Hl Hv.
  destruct (decide (uid = u)) as [->|Hne].
  - rewrite lookup_insert_eq in Hl. injection Hl as <-. contradiction.
  - rewrite lookup_insert_ne in Hl by exact Hne. eauto.
Qed.

(** X21: in every reachable manager the global store holds entries of the
    owner "global" only, and the store of a user holds entries of the owner
    "user:<that user>" only. *)
Theorem stores_hold_their_scope (mgr : RAGManager) :
  reachable mgr ->
  (forall v, In v (vectors (global_store mgr)) -> vec_owner v = "global")
  /\ (forall uid st v, user_stores mgr !! uid = Some st ->
        In v (vectors st) -> vec_owner v = "user:" +:+ uid).
Proof.
  change (reachable mgr -> scoped mgr).
  induction 1 as [fn dim | mgr d t ts now _ IH | mgr u d t ts now _ IH
                  | mgr q uid kg ku _ IH].
  - split; simpl; [tauto|]. intros uid st v Hl. now rewrite lookup_empty in Hl.
  - destruct IH as [Hg Hu]. split; [|exact Hu]. simpl.
    intros v Hv. apply in_app_or in Hv. destruct Hv as [Hv|[<-|[]]]; auto.
  - apply (scoped_get_user_store mgr u) in IH.
    pose proof (get_user_store_held mgr u) as Hheld.
    unfold add_user_document.
    destruct (_get_user_store mgr u) as [store mgr1]. simpl in *.
    destruct IH as [Hg Hu]. split; [exact Hg|]. simpl.
    intros uid st v Hl Hv.
    destruct (decide (u = uid)) as [->|Hne].
    + rewrite lookup_insert_eq in Hl. injection Hl as <-. simpl in Hv.
      apply in_app_or in Hv. destruct Hv as [Hv|[<-|[]]]; eauto.
    + rewrite lookup_insert_ne in Hl by exact Hne. eauto.
  - rewrite retrieve_unfold. simpl.
    destruct (str_truthy uid); [|exact IH].
    now apply scoped_get_user_store.
Qed.

Lemma stores_hold_their_scope_witness :
  let v := mkVec "turn:global:0" "global" "pythag: a^2 + b^2 = c^2" None
                 1%float in
  reachable Examples.shared_doc
  /\ In v (vectors (global_store Examples.shared_doc))
  /\ vec_owner v = "global".
Proof.
  intros v.
  assert (Hr : reachable Examples.shared_doc)
    by (apply reach_add_user, reach_add_global, reach_new).
  assert (Hv : In v (vectors (global_store Examples.shared_doc)))
    by (vm_compute; left; reflexivity).
  split; [exact Hr|]. split; [exact Hv|].
  apply (proj1 (stores_hold_their_scope Examples.shared_doc Hr) v Hv).
Defined.



(** ** The planner: steps *)




Lemma has_char_app (c : ascii) (s1 s2 : string) :
  PyStr.has_char c (s1 +:+ s2) = PyStr.has_char c s1 || PyStr.has_char c s2.
Proof.
  induction s1 as [|a s1 IH]; simpl; [reflexivity|].
  now rewrite IH, orb_assoc.
Qed.







Lemma replace_char_removes (c : ascii) (by_ s : string) :
  PyStr.has_char c by_ = false ->
  PyStr.has_char c (PyStr.replace_char c by_ s) = false.
Proof.
  intros Hb. induction s as [|d s IH]; simpl; [reflexivity|].
  destruct (Ascii.eqb_spec d c) as [->|Hne].
  - now rewrite has_char_app, Hb, IH.
  - simpl. rewrite IH, orb_false_r.
    destruct (Ascii.eqb_spec c d); [congruence|reflexivity].
Qed.

(** X24: when there is context, the first step of [_decompose_problem] is
    the synthetic one: it starts with "Consult relevant formulas and
    proofs: ", holds no newline however many lines the context has, and is
    followed by the steps the problem gives without context. *)
Theorem decompose_problem_hint (problem rag_ctx : string) :
  PyStr.truthy rag_ctx = true ->
  exists hint,
    _decompose_problem problem rag_ctx
    = hint :: _decompose_problem problem ""
    /\ String.prefix "Consult relevant formulas and proofs: " hint = true
    /\ PyStr.has_char "010" hint = false.
Proof.
  intros Ht. unfold _decompose_problem. rewrite Ht. simpl PyStr.truthy.
  cbv iota. eexists. split; [reflexivity|]. split.
  - apply prefix_app. eexists. reflexivity.
  - rewrite has_char_app. rewrite replace_char_removes by reflexivity.
    reflexivity.
Qed.

Lemma decompose_problem_hint_witness :
  exists hint,
    _decompose_problem "Solve x+2=5 for x."
                       ("Relevant documents (RAG):" +:+ newline +:+ "[GLOBAL] a")
    = hint :: _decompose_problem "Solve x+2=5 for x." ""
    /\ String.prefix "Consult relevant formulas and proofs: " hint = true
    /\ PyStr.has_char "010" hint = false.
Proof.
  apply (decompose_problem_hint "Solve x+2=5 for x."
           ("Relevant documents (RAG):" +:+ newline +:+ "[GLOBAL] a")).
  reflexivity.
Defined.

(** ** The planner: state *)

Lemma build_rag_context_render (mgr : RAGManager) (query : string)
    (user_id : option string) (kg ku : Z) :
  build_rag_context mgr query user_id kg ku
  = (render_context (fst (retrieve mgr query user_id kg ku)),
     snd (retrieve mgr query user_id kg ku)).
Proof.
  unfold build_rag_context, render_context.
  destruct (retrieve mgr query user_id kg ku) as [[|h hits] mgr1];
    reflexivity.
Qed.

Lemma retrieve_again (mgr : RAGManager) (query : string)
    (user_id : option string) (kg ku : Z) :
  retrieve (snd (retrieve mgr query user_id kg ku)) query user_id kg ku
  = retrieve mgr query user_id kg ku.
Proof.
  rewrite !retrieve_unfold. cbn [fst snd].
  unfold combined_hits, global_hits, user_hits.
  destruct (str_truthy user_id) eqn:Hu; [|reflexivity].
  rewrite get_user_store_global, get_user_store_again. reflexivity.
Qed.

Lemma retrieve_keeps_stores (mgr : RAGManager) (query : string)
    (user_id : option string) (kg ku : Z) (uid : string) (st : MemoryStore) :
  user_stores mgr !! uid = Some st ->
  user_stores (snd (retrieve mgr query user_id kg ku)) !! uid = Some st.
Proof.
  intros H. rewrite retrieve_unfold. simpl.
  destruct (str_truthy user_id); [|exact H].
  rewrite get_user_store_stores.
  destruct (user_stores mgr !! default "" user_id) eqn:E; [exact H|].
  rewrite lookup_insert_ne; [exact H|]. intros Eu. congruence.
Qed.

(** X25: [plan] keeps no state of its own: it leaves the planner's memory
    store, the global store and every existing per-user store as they are,
    and calling it again with the same arguments (and clock readings) on the
    planner it leaves behind returns the same plan, planner and verifier
    calls. *)
Theorem plan_is_repeatable (v : Verifier) (p : ReActPlanner)
    (problem : string) (user_id : option string) (verify : bool)
    (t_start t_end : float) :
  let r := plan v p problem user_id verify t_start t_end in
  memory (planner_of r) = memory p
  /\ global_store (rag (planner_of r)) = global_store (rag p)
  /\ (forall uid st, user_stores (rag p) !! uid = Some st ->
        user_stores (rag (planner_of r)) !! uid = Some st)
  /\ plan v (planner_of r) problem user_id verify t_start t_end = r.
Proof.
  intros r. subst r. rewrite plan_unfold. unfold planner_of. simpl.
  rewrite build_rag_context_render. simpl.
  split; [reflexivity|]. split.
  { rewrite retrieve_unfold. simpl. destruct (str_truthy user_id);
      [apply get_user_store_global | reflexivity]. }
  split; [intros uid st; apply retrieve_keeps_stores|].
  rewrite plan_unfold. simpl. rewrite build_rag_context_render.
  now rewrite retrieve_again.
Qed.

(** ** mcp.py: the Desmos URL *)

Lemma chars_app (a b : string) : chars (a +:+ b) = chars a ++ chars b.
Proof. induction a as [|c a IH]; simpl; [reflexivity|]. now rewrite IH. Qed.

Lemma quote_char_query (c : ascii) :
  forallb Url.query_char (chars (Url.quote_char c)) = true.
Proof. destruct c as [[] [] [] [] [] [] [] []]; vm_compute; reflexivity. Qed.

Lemma quote_query (s : string) :
  forallb Url.query_char (chars (Url.quote s)) = true.
Proof.
  induction s as [|c s IH]; [reflexivity|].
  unfold Url.quote in *. simpl. rewrite chars_app, forallb_app.
  now rewrite quote_char_query, IH.
Qed.

(** X27: whatever the expression, the URL of [desmos_graph] is the
    calculator's address, "?state=" and a value made only of letters,
    digits, [_ . - ~ /] and [%]: the JSON state never puts a character
    into the URL that would need quoting. *)
Theorem desmos_graph_url (expression : string) :
  exists value,
    Url.desmos_graph expression
    = "https://www.desmos.com/calculator?state=" +:+ value
    /\ forallb Url.query_char (chars value) = true.
Proof.
  exists (Url.quote (Url.json_state expression)).
  split; [reflexivity|]. apply quote_query.
Qed.

Lemma unquote_head_quote_char (c : ascii) (r : string) :
  Url.unquote_head (Url.quote_char c +:+ r) = Some (c, r).
Proof. destruct c as [[] [] [] [] [] [] [] []]; reflexivity. Qed.

Lemma unescape_head_escape_char (c : ascii) (r : string) :
  Url.unescape_head (Url.json_escape_char c +:+ r) = Some (c, r).
Proof. destruct c as [[] [] [] [] [] [] [] []]; reflexivity. Qed.

Lemma string_app_assoc (a b c : string) : a +:+ (b +:+ c) = (a +:+ b) +:+ c.
Proof.
  induction a as [|x a IH]; [reflexivity|].
  change (String x (a +:+ (b +:+ c)) = String x ((a +:+ b) +:+ c)).
  now rewrite IH.
Qed.

(** An encoding whose first character can be read back is one-to-one, also
    in front of a text [t] that does not read as an encoded character. *)
Lemma encode_chars_inj (enc : ascii -> string)
    (dec : string -> option (ascii * string)) (t : string) :
  (forall c r, dec (enc c +:+ r) = Some (c, r)) -> dec t = None ->
  forall s1 s2,
    Url.encode_chars enc s1 +:+ t = Url.encode_chars enc s2 +:+ t ->
    s1 = s2.
Proof.
  intros Hdec Ht. induction s1 as [|c1 s1 IH]; intros [|c2 s2] E;
    cbn [Url.encode_chars] in E; apply (f_equal dec) in E;
    rewrite <- ?string_app_assoc in E;
    change ("" +:+ t) with t in E; rewrite ?Hdec, ?Ht in E.
  - reflexivity.
  - discriminate.
  - discriminate.
  - injection E as -> E. f_equal. now apply IH.
Qed.

Lemma string_app_nil_r (s : string) : s +:+ "" = s.
Proof.
  induction s as [|c s IH]; [reflexivity|].
  change (String c (s +:+ "") = String c s). now rewrite IH.
Qed.

Lemma quote_inj (s1 s2 : string) : Url.quote s1 = Url.quote s2 -> s1 = s2.
Proof.
  intros E.
  apply (encode_chars_inj Url.quote_char Url.unquote_head "");
    [apply unquote_head_quote_char | reflexivity |].
  now rewrite !string_app_nil_r.
Qed.

(** X28: on expressions whose characters all have a code point below 256,
    the strings of this development, [desmos_graph] gives different
    expressions different URLs: the expression can be read back from the
    URL.  (Beyond the Basic Multilingual Plane this fails: [json.dumps]
    writes a character above U+FFFF and its pair of lone surrogates
    alike.) *)
Theorem desmos_graph_inj (e1 e2 : string) :
  Url.desmos_graph e1 = Url.desmos_graph e2 -> e1 = e2.
Proof.
  unfold Url.desmos_graph. intros E.
  apply (inj (String.app _)) in E. apply (inj (String.app _)) in E.
  apply quote_inj in E. unfold Url.json_state in E.
  repeat (apply (inj (String.app _)) in E).
  unfold Url.json_string in E. injection E as E.
  rewrite <- !string_app_assoc in E.
  apply (encode_chars_inj Url.json_escape_char Url.unescape_head) in E;
    [exact E | apply unescape_head_escape_char | reflexivity].
Qed.

Lemma desmos_graph_inj_witness :
  Url.desmos_graph "y=x^2" = Url.desmos_graph "y=x^2" /\ "y=x^2" = "y=x^2".
Proof.
  split; [reflexivity|].
  apply (desmos_graph_inj "y=x^2" "y=x^2"). reflexivity.
Defined.

(** ** The store: stored embeddings *)

(** X29: in a reachable store with a configured (non-zero) dimension, every
    embedding kept in the index has exactly that length: a vector of
    another length is dropped, the record stays. *)
Theorem stored_embeddings_have_dimension (st : MemoryStore) (dim : Z)
    (v : VectorEntry) (emb : list float) :
  reachable_store st -> embedding_dim st = Some dim -> dim <> 0 ->
  In v (vectors st) -> vec_emb v = Some emb ->
  Z.of_nat (length emb) = dim.
Proof.
  intros Hr. revert v emb.
  induction Hr as [fn d | st c r t ts now _ IH | st u p _ IH];
    intros v emb Hd Hnz Hv He.
  - contradiction.
  - simpl in Hd, Hv. apply in_app_or in Hv.
    destruct Hv as [Hv|[<-|[]]]; [now apply (IH v)|].
    simpl in He. unfold stored_embedding in He. rewrite Hd in He.
    destruct (embedding_fn st) as [f|]; [|discriminate].
    destruct (f t) as [e|]; [|discriminate]. simpl in He.
    destruct (Z.eqb_spec dim 0); [contradiction|]. simpl in He.
    destruct (Z.eqb_spec (Z.of_nat (length e)) dim); [|discriminate].
    injection He as <-. assumption.
  - now apply (IH v).
Qed.

Lemma stored_embeddings_have_dimension_witness :
  let st := Examples.dim2_store Examples.uneven_embedder in
  let v := mkVec "turn:c:0" "c" "doc one" (Some [1; 0]%float) 1%float in
  reachable_store st /\ In v (vectors st)
  /\ Z.of_nat (length [1; 0]%float) = 2.
Proof.
  intros st v.
  assert (Hr : reachable_store st) by (apply store_turn, store_new).
  assert (Hv : In v (vectors st)) by (vm_compute; left; reflexivity).
  split; [exact Hr|]. split; [exact Hv|].
  apply (stored_embeddings_have_dimension st 2 v [1; 0]%float Hr eq_refl);
    [discriminate | exact Hv | reflexivity].
Defined.

(** ** The planner: a document that was added shows in the plan *)

(** X30: on a planner without embedder whose global store holds fewer than
    three documents, a domain document added with [add_domain_doc] reaches
    the next plan whenever the lowercase problem occurs in the lowercase
    "<doc_id>: <text>": the context of the plan is not empty and the first
    step is the synthetic "Consult relevant formulas and proofs: ..."
    step. *)
Theorem added_domain_doc_reaches_plan (v : Verifier) (p : ReActPlanner)
    (doc_id text problem : string) (now : float) (user_id : option string)
    (verify : bool) (t_start t_end : float) :
  embedding_fn (global_store (rag p)) = None ->
  PyStr.contains (PyStr.lower problem)
                 (PyStr.lower (doc_id +:+ ": " +:+ text)) = true ->
  (length (vectors (global_store (rag p))) < 3)%nat ->
  let r := plan v (add_domain_doc p doc_id text now) problem user_id verify
                t_start t_end in
  plan_rag_context (plan_of r) <> ""
  /\ exists first rest,
       plan_steps (plan_of r) = first :: rest
       /\ String.prefix "Consult relevant formulas and proofs: " (step first)
          = true.
Proof.
  intros Hfn Hq Hlen r. subst r. rewrite plan_unfold. unfold plan_of.
  simpl. rewrite build_rag_context_render. simpl.
  destruct (global_document_found (rag p) doc_id text problem None now
              user_id 3 3 Hfn Hq ltac:(lia)) as (h & Hh & _).
  destruct (fst (retrieve (add_global_document (rag p) doc_id text None now)
                          problem user_id 3 3)) as [|h0 hits];
    [contradiction|].
  split; [discriminate|].
  unfold _decompose_problem. simpl render_context.
  cbn [PyStr.truthy String.append]. cbv iota.
  eexists _, _. split; [reflexivity|]. simpl step.
  apply prefix_app. eexists. reflexivity.
Qed.

Lemma added_domain_doc_reaches_plan_witness :
  plan_rag_context
    (plan_of (plan (fun s => inl s)
                (add_domain_doc (new_planner None None) "pythag"
                   "a^2 + b^2 = c^2" 1%float)
                "pythag" None false 1%float 2%float))
  <> "".
Proof.
  apply (added_domain_doc_reaches_plan (fun s => inl s)
           (new_planner None None) "pythag" "a^2 + b^2 = c^2" "pythag"
           1%float None false 1%float 2%float).
  - reflexivity.
  - reflexivity.
  - simpl. lia.
Defined.
